(** * realworld-nestjs-medium-blog: ArticlesService and CommentsService

    A shallow embedding of [src/articles/articles.service.ts] and
    [src/comments/comments.service.ts].

    The two services are straight-line orchestrations of calls to
    collaborators (repositories, the tags service, the transaction manager,
    the random source).  A service method is embedded as a finite command
    tree [Prog]: every [await] of a collaborator is one node, and a thrown
    exception is a leaf.  The tree is what the source says; what the
    collaborators answer is given separately by a handler. *)

From Stdlib Require Import List ZArith NArith Lia Bool String Ascii.
From Stdlib Require Import Permutation DecimalString.
Import ListNotations.

Local Open Scope Z_scope.

(** ** JavaScript strings

    A JS string is a sequence of UTF-16 code units.  A code unit is kept as
    an [N]; literals of the source are written with [lit]. *)

Module JS.

Definition str := list N.

Definition lit (s : string) : str :=
  map N_of_ascii (list_ascii_of_string s).

Definition str_eqb (a b : str) : bool :=
  if list_eq_dec N.eq_dec a b then true else false.

(** Truthiness of a string value: only the empty string is falsy. *)
Definition truthy (s : str) : bool :=
  match s with [] => false | _ :: _ => true end.

(** [s[i]] followed by string concatenation: an index outside the string
    reads [undefined], which [+=] appends as the text undefined. *)
Definition index_text (s : str) (i : Z) : str :=
  if i <? 0 then lit "undefined"
  else match nth_error s (Z.to_nat i) with
       | Some c => [c]
       | None => lit "undefined"
       end.

(** [a[i] & m] on a [Uint8Array]: an index past the end reads [undefined],
    which [&] converts to 0. *)
Definition u8_at_and (a : list Z) (i : nat) (m : Z) : Z :=
  Z.land (nth i a 0) m.

(** Code-unit classes used by the slug code. *)
Definition is_upper (c : N) : bool := ((65 <=? c) && (c <=? 90))%N.
Definition is_lower (c : N) : bool := ((97 <=? c) && (c <=? 122))%N.
Definition is_digit (c : N) : bool := ((48 <=? c) && (c <=? 57))%N.

(** The class [\s] of a JS regular expression, which is also what
    [String.prototype.trim] strips: white space and line terminators. *)
Definition is_space (c : N) : bool :=
  ((9 <=? c) && (c <=? 13)
   || (c =? 32) || (c =? 160) || (c =? 5760)
   || ((8192 <=? c) && (c <=? 8202))
   || (c =? 8232) || (c =? 8233) || (c =? 8239) || (c =? 8287)
   || (c =? 12288) || (c =? 65279))%N.

Fixpoint trimStart (s : str) : str :=
  match s with
  | [] => []
  | c :: r => if is_space c then trimStart r else s
  end.

Definition trimEnd (s : str) : str := rev (trimStart (rev s)).

Definition trim (s : str) : str := trimEnd (trimStart s).

(** [toLowerCase] on the ASCII letters.  The slug code applies it to a
    string that holds ASCII letters, digits and dashes only; other code
    units are left as they are here. *)
Definition lower_unit (c : N) : N :=
  if is_upper c then (c + 32)%N else c.

Definition toLowerCase (s : str) : str := map lower_unit s.

End JS.

Import JS.

(** ** The third-party helpers

    [unique] and [diff] come from the package radash and [slugify] from the
    package slugify; none of them is under src/.  [unique] and [diff] are
    modelled after the package's code: both collect their items as the keys
    of a plain object.  [unique] sets [acc[item] = item] unless [acc[item]]
    is truthy already and returns [Object.values(acc)]; [diff] sets
    [bKeys[item] = true] for the items of the second array and keeps the
    items [a] of the first with [bKeys[a]] falsy. *)

Module Radash.

Definition mem (x : str) (l : list str) : bool := existsb (str_eqb x) l.

(** The properties every plain object inherits from Object.prototype; the
    value of each is a function or an object, so it is truthy. *)
Definition inherited_keys : list str :=
  map lit
    ["constructor"; "__defineGetter__"; "__defineSetter__"; "hasOwnProperty";
     "__lookupGetter__"; "__lookupSetter__"; "isPrototypeOf";
     "propertyIsEnumerable"; "toString"; "valueOf"; "__proto__";
     "toLocaleString"]%string.

Definition inherited (key : str) : bool := mem key inherited_keys.

Fixpoint digits_value (s : str) (acc : N) : option N :=
  match s with
  | [] => Some acc
  | c :: r =>
      if is_digit c then digits_value r (acc * 10 + (c - 48))%N else None
  end.

(** A key is an array index when it is the decimal text, without leading
    zeros, of an integer from 0 to 2^32 - 2. *)
Definition array_index (key : str) : option N :=
  match key with
  | [] => None
  | c :: r =>
      if (c =? 48)%N && match r with [] => false | _ :: _ => true end
      then None
      else match digits_value key 0 with
           | Some n => if (n <=? 4294967294)%N then Some n else None
           | None => None
           end
  end.

Section PlainObject.

Variable V : Type.
Variable truthy_value : V -> bool.

(** The own properties of a plain object, in the order of their creation. *)
Definition obj := list (str * V).

Fixpoint own (o : obj) (key : str) : option V :=
  match o with
  | [] => None
  | (k, v) :: r => if str_eqb k key then Some v else own r key
  end.

(** [o[key]] read as a condition: an own property by its value, an
    inherited one is truthy, anything else is [undefined]. *)
Definition truthy_at (o : obj) (key : str) : bool :=
  match own o key with
  | Some v => truthy_value v
  | None => inherited key
  end.

Fixpoint put (o : obj) (key : str) (v : V) : obj :=
  match o with
  | [] => [(key, v)]
  | (k, x) :: r =>
      if str_eqb k key then (k, v) :: r else (k, x) :: put r key v
  end.

(** [o[key] = v] for a value that is no object: the key [__proto__] goes to
    the setter of Object.prototype, which ignores such a value. *)
Definition assign (o : obj) (key : str) (v : V) : obj :=
  if str_eqb key (lit "__proto__") then o else put o key v.

Fixpoint insert_index (n : N) (v : V) (l : list (N * V)) : list (N * V) :=
  match l with
  | [] => [(n, v)]
  | (m, x) :: r =>
      if (n <=? m)%N then (n, v) :: l else (m, x) :: insert_index n v r
  end.

Fixpoint indexed (o : obj) : list (N * V) :=
  match o with
  | [] => []
  | (k, v) :: r =>
      match array_index k with
      | Some n => insert_index n v (indexed r)
      | None => indexed r
      end
  end.

Fixpoint named (o : obj) : list V :=
  match o with
  | [] => []
  | (k, v) :: r =>
      match array_index k with
      | Some _ => named r
      | None => v :: named r
      end
  end.

(** [Object.values(o)]: the properties whose key is an array index first,
    by ascending index, then the others in the order of their creation. *)
Definition values (o : obj) : list V := map snd (indexed o) ++ named o.

End PlainObject.

Arguments own {V} o key.
Arguments truthy_at {V} truthy_value o key.
Arguments put {V} o key v.
Arguments assign {V} o key v.
Arguments values {V} o.

Definition unique_step (acc : obj str) (item : str) : obj str :=
  if truthy_at truthy acc item then acc else assign acc item item.

Definition unique (array : list str) : list str :=
  values (fold_left unique_step array []).

Definition bKeys (other : list str) : obj bool :=
  fold_left (fun acc item => assign acc item true) other [].

Definition diff (root other : list str) : list str :=
  match root, other with
  | [], [] => []
  | _, [] => root
  | _, _ :: _ =>
      filter (fun a => negb (truthy_at (fun b => b) (bKeys other) a)) root
  end.

End Radash.

(** [slugify(string, options)] of the package slugify, for the options the
    service passes: [replacement] is left at its default (a dash), [trim] at its
    default [true], [locale] is not set.  The package's transliteration table
    [charMap] and [String.prototype.normalize] are parameters. *)

Module SlugifyLib.

Section WithTable.

Variable charMap : N -> option str.
Variable normalize : str -> str.

Record options := {
  lower : bool;
  strict : bool;
  remove : N -> bool    (* the class of the [remove] regular expression *)
}.

Definition replacement : str := lit "-".

(** One step of the [reduce]: the text appended for the code unit [ch]. *)
Definition appendChar (o : options) (ch : N) : str :=
  let a := match charMap ch with Some t => t | None => [ch] end in
  let a := if str_eqb a replacement then lit " " else a in
  filter (fun c => negb (remove o c)) a.

(** The [strict] step: every code unit that is neither an ASCII letter, a
    digit nor white space is dropped. *)
Definition strict_filter (s : str) : str :=
  filter (fun c => is_upper c || is_lower c || is_digit c || is_space c) s.

(** The replacement step: every maximal run of white space becomes one
    replacement.  [inrun] tells that the previous code unit was
    white space. *)
Fixpoint replace_spaces (inrun : bool) (s : str) : str :=
  match s with
  | [] => []
  | c :: r =>
      if is_space c
      then (if inrun then replace_spaces true r
            else replacement ++ replace_spaces true r)
      else c :: replace_spaces false r
  end.

Definition slugify (s : str) (o : options) : str :=
  let slug := flat_map (appendChar o) (normalize s) in
  let slug := if strict o then strict_filter slug else slug in
  let slug := trim slug in
  let slug := replace_spaces false slug in
  if lower o then toLowerCase slug else slug.

End WithTable.

End SlugifyLib.

(** ** The slug code of ArticlesService (articles.service.ts, 81-104) *)

Module Slug.

(** Line 95. *)
Definition charset : str :=
  lit "useandom-26T198340PX75pxJACKVERYMINDBUSHWOLF_GQZbfghjklqvwyzrict".

(** The character class of the [remove] option, line 85: star, plus, tilde,
    dot, both parentheses, both quotes, exclamation mark, colon, at sign. *)
Definition remove_class (c : N) : bool :=
  existsb (N.eqb c) (lit "*+~.()'!:@" ++ [34%N]).

Definition slug_options : SlugifyLib.options :=
  {| SlugifyLib.lower := true;
     SlugifyLib.strict := true;
     SlugifyLib.remove := remove_class |}.

(** The loop of lines 99-101, started at index [i] with [n] rounds left. *)
Fixpoint suffix_loop (randomValues : list Z) (i n : nat) (id : str) : str :=
  match n with
  | O => id
  | S n' =>
      suffix_loop randomValues (S i) n'
        (id ++ index_text charset (u8_at_and randomValues i 63))
  end.

(** [generateUniqueSuffix] once the random bytes are known. *)
Definition suffix_of (length : nat) (randomValues : list Z) : str :=
  suffix_loop randomValues 0 length [].

(** The symbol the alphabet holds at a masked byte. *)
Definition symbol (byte : Z) : N :=
  nth (Z.to_nat (Z.land byte 63)) charset 0%N.

(** What the strict step keeps, and what is left once white space has
    become dashes. *)
Definition kept (c : N) : Prop :=
  is_upper c || is_lower c || is_digit c || is_space c = true.

Definition joined (c : N) : Prop :=
  is_upper c || is_lower c || is_digit c || (c =? 45)%N = true.

(** A character of a lower-case slug: lower-case letter, digit, or the
    separator (the dash). *)
Definition is_slug_unit (c : N) : bool :=
  is_lower c || is_digit c || (c =? 45)%N.

End Slug.

(** ** Data model

    [Tag] is the class of src (tags/domain/tag.ts).  The other domain
    classes and the DTOs are declared outside src; their fields are the ones
    the two services read or write, with the names the services use.  A
    [Date] is kept as its time value. *)

Definition Id := N.

Record User := { user_id : Id }.

Record JwtPayloadType := { jwt_id : Id }.

Record Tag := {
  tag_id : str;
  tag_name : str;
  tag_created_at : Z;
  tag_updated_at : Z
}.

Record CreateTagDto := { dto_name : str }.

Record Article := {
  article_id : Id;
  article_title : str;
  article_slug : str;
  article_body : str;
  article_author_id : Id;
  article_author : option User;
  article_tagList : option (list Tag);
  article_created_at : Z;
  article_updated_at : Z
}.

Record CreateArticleDto := {
  create_title : str;
  create_body : str;
  create_tagList : option (list str)
}.

(** [articlePayload], lines 70-74: the DTO's fields, [author_id], and
    [tagList] and [slug] written over them. *)
Record ArticlePayload := {
  payload_title : str;
  payload_body : str;
  payload_author_id : Id;
  payload_tagList : option (list Tag);
  payload_slug : str
}.

Record UpdateArticleDto := {
  update_title : option str;
  update_body : option str
}.

(** [payload] of [update], lines 128-132.  [upd_slug = None] is a payload
    without a [slug] key. *)
Record UpdatePayload := {
  upd_body : option str;
  upd_title : option str;
  upd_slug : option str
}.

Record Comment := {
  comment_id : Id;
  comment_body : str;
  comment_article_id : Id;
  comment_author_id : Id;
  comment_author : option User;
  comment_created_at : Z;
  comment_updated_at : Z
}.

Record CommentPayload := {
  cp_article_id : Id;
  cp_body : str;
  cp_author_id : Id
}.

(** ** Exceptions *)

Inductive Exception :=
| NotFoundException (status : Z) (key message : string)
| UnauthorizedException (status : Z) (key message : string)
| StorageFailure.

Module HttpStatus.
Definition NOT_FOUND : Z := 404.
Definition UNAUTHORIZED : Z := 401.
End HttpStatus.

(** ** Collaborator calls and command trees *)

Inductive Call : Type -> Type :=
| TagsFindByNames (names : list str) : Call (option (list Tag))
| TagsCreateMany (dtos : list CreateTagDto) : Call (list Tag)
| ArticleCreate (payload : ArticlePayload) : Call (option Article)
| ArticleFindById (id : Id) : Call (option Article)
| ArticleFindBySlug (slug : str) : Call (option Article)
| ArticleFindByIdWithRelations (id : option Id) : Call (option Article)
| ArticleUpdate (article : Article) (payload : UpdatePayload) : Call Article
| CommentFindById (id : Id) : Call (option Comment)
| CommentRemove (id : Id) : Call unit
| GetRandomValues (length : nat) : Call (list Z).

(** What a run leaves in its trace. *)
Inductive Event :=
| Invoked {X} (c : Call X)
| Begin
| Commit
| Rollback.

Inductive Prog : Type -> Type :=
| Ret {A} (a : A) : Prog A
| Throw {A} (e : Exception) : Prog A
| Do {A X} (c : Call X) (k : X -> Prog A) : Prog A
| RunInTransaction {A X} (body : Prog X) (k : X -> Prog A) : Prog A.

Fixpoint bind {A B} (p : Prog A) : (A -> Prog B) -> Prog B :=
  match p in Prog A return (A -> Prog B) -> Prog B with
  | Ret a => fun f => f a
  | Throw e => fun _ => Throw e
  | Do c k => fun f => Do c (fun x => bind (k x) f)
  | RunInTransaction body k =>
      fun f => RunInTransaction body (fun x => bind (k x) f)
  end.

Definition call {X} (c : Call X) : Prog X := Do c Ret.

Declare Scope prog_scope.
Delimit Scope prog_scope with prog.
Notation "x <- p ;; q" := (bind p (fun x => q))
  (at level 61, p at next level, right associativity) : prog_scope.
Notation "p ;;; q" := (bind p (fun _ => q))
  (at level 61, right associativity) : prog_scope.
Local Open Scope prog_scope.

(** ** Running a command tree

    The world a run goes through: the stored rows [db], and what the
    environment supplies besides (an id generator, the clock, the bytes the
    random source will deliver). *)

Record DB := {
  tags : list Tag;
  articles : list Article;
  comments : list Comment;
  users : list User
}.

Record World := {
  db : DB;
  next_id : N;
  now : Z;
  entropy : nat -> Z;
  drawn : nat
}.

Inductive Result (A : Type) :=
| Ok (a : A)
| Err (e : Exception).
Arguments Ok {A} a.
Arguments Err {A} e.

(** A handler answers every collaborator call: it may change the world and
    it may fail. *)
Definition Handler := forall X, Call X -> World -> World * Result X.

Definition set_db (w : World) (d : DB) : World :=
  {| db := d; next_id := next_id w; now := now w;
     entropy := entropy w; drawn := drawn w |}.

(** Modelled from the spec: the transaction manager
    ([dbHelperRepository.transactionManager], outside src).  Spec section 6:
    runInTransaction(fn) executes fn atomically, propagating success or
    failure; section 4.3: on failure the entire transaction rolls back.  A
    failed body leaves the stored rows as they were when it began. *)
Definition rollback (before after : World) : World :=
  set_db after (db before).

Fixpoint run {A} (h : Handler) (p : Prog A) (w : World)
  : World * list Event * Result A :=
  match p with
  | Ret a => (w, [], Ok a)
  | Throw e => (w, [], Err e)
  | Do c k =>
      match h _ c w with
      | (w1, Ok x) =>
          let '(w2, t, r) := run h (k x) w1 in (w2, Invoked c :: t, r)
      | (w1, Err e) => (w1, [Invoked c], Err e)
      end
  | RunInTransaction body k =>
      match run h body w with
      | (w1, t1, Ok x) =>
          let '(w2, t2, r) := run h (k x) w1 in
          (w2, Begin :: t1 ++ Commit :: t2, r)
      | (w1, t1, Err e) =>
          (rollback w w1, Begin :: t1 ++ [Rollback], Err e)
      end
  end.

(** ** CommentsService (comments.service.ts) *)

Module CommentsService.

(** Lines 60-73. *)
Definition validateAndFetchComment (id : Id) : Prog Comment :=
  comment <- call (CommentFindById id);;
  match comment with
  | None =>
      Throw (NotFoundException HttpStatus.NOT_FOUND "id" "Comment not found")
  | Some comment => Ret comment
  end.

(** [comment?.author?.id !== userJwtPayload.id], line 78: a comment without
    a populated author gives [undefined], which differs from every id. *)
Definition author_differs (comment : Comment) (userJwtPayload : JwtPayloadType)
  : bool :=
  match comment_author comment with
  | Some author => negb (user_id author =? jwt_id userJwtPayload)%N
  | None => true
  end.

(** Lines 75-88. *)
Definition remove (id : Id) (userJwtPayload : JwtPayloadType) : Prog unit :=
  comment <- validateAndFetchComment id;;
  if author_differs comment userJwtPayload
  then Throw (UnauthorizedException HttpStatus.UNAUTHORIZED
                "id" "Not unauthorized to delete the comment")
  else call (CommentRemove id).

(** The actor is the author the fetched comment carries. *)
Definition authored_by (comment : Comment) (actor : JwtPayloadType) : bool :=
  match comment_author comment with
  | Some author => (user_id author =? jwt_id actor)%N
  | None => false
  end.

Definition comment_not_found : Exception :=
  NotFoundException HttpStatus.NOT_FOUND "id" "Comment not found".

Definition not_authorized : Exception :=
  UnauthorizedException HttpStatus.UNAUTHORIZED
    "id" "Not unauthorized to delete the comment".

End CommentsService.

(** ** ArticlesService (articles.service.ts) *)

Module ArticlesService.

(** Modelled from the spec: [TagsService.toCreateTagDtos], outside src.
    Spec section 4.1: new tag records are created for exactly the names of
    the difference, so every name gives one creation DTO. *)
Definition toCreateTagDtos (names : list str) : list CreateTagDto :=
  map (fun n => {| dto_name := n |}) names.

Definition article_not_found : Exception :=
  NotFoundException HttpStatus.NOT_FOUND "slug" "Artilce not found".

(** Lines 176-189. *)
Definition validateAndFetchArticleBySlug (slug : str) : Prog Article :=
  article <- call (ArticleFindBySlug slug);;
  match article with
  | None => Throw article_not_found
  | Some article => Ret article
  end.

(** Lines 191-204. *)
Definition validateAndFetchArticleById (id : Id) : Prog Article :=
  article <- call (ArticleFindById id);;
  match article with
  | None => Throw article_not_found
  | Some article => Ret article
  end.

(** Lines 206-221. *)
Definition validateAndFetchArticleWithRelationsById (id : option Id)
  : Prog Article :=
  article <- call (ArticleFindByIdWithRelations id);;
  match article with
  | None => Throw article_not_found
  | Some article => Ret article
  end.

(** Lines 223-234. *)
Definition validateArticle (slug : str) : Prog unit :=
  article <- call (ArticleFindBySlug slug);;
  match article with
  | None => Throw article_not_found
  | Some _ => Ret tt
  end.

(** Lines 93-104; [length] is [None] when the caller leaves the default. *)
Definition generateUniqueSuffix (length : option nat) : Prog str :=
  let length := match length with Some n => n | None => 11%nat end in
  randomValues <- call (GetRandomValues length);;
  Ret (Slug.suffix_of length randomValues).

(** Lines 236-244. *)
Definition removeComment (id : Id) (slug : str)
    (userJwtPayload : JwtPayloadType) : Prog unit :=
  validateArticle slug;;;
  CommentsService.remove id userJwtPayload.

Section WithSlugify.

Variable charMap : N -> option str.
Variable normalize : str -> str.

(** The [baseSlug] of line 82. *)
Definition baseSlug (title : str) : str :=
  SlugifyLib.slugify charMap normalize title Slug.slug_options.

(** Lines 81-91. *)
Definition slugify (title : str) : Prog str :=
  let baseSlug := baseSlug title in
  uniqueSuffix <- generateUniqueSuffix None;;
  Ret (baseSlug ++ lit "-" ++ uniqueSuffix).

(** Lines 49-68: the tags of the article to create. *)
Definition createArticle_tags (tagList : option (list str))
  : Prog (option (list Tag)) :=
  match tagList with
  | Some ((_ :: _) as tagList) =>
      let uniqueTagList := Radash.unique tagList in
      tags <- call (TagsFindByNames uniqueTagList);;
      let newTagNames :=
        Radash.diff uniqueTagList
          (match tags with Some ts => map tag_name ts | None => [] end) in
      if (0 <? List.length newTagNames)%nat
      then
        newTags <- call (TagsCreateMany (toCreateTagDtos newTagNames));;
        Ret (Some (match tags with Some ts => ts | None => [] end ++ newTags))
      else Ret tags
  | _ => Ret (Some [])
  end.

(** Lines 40-79. *)
Definition createArticleWithTransaction (createArticleDto : CreateArticleDto)
    (userJwtPayload : JwtPayloadType) : Prog Article :=
  tags <- createArticle_tags (create_tagList createArticleDto);;
  slug <- slugify (create_title createArticleDto);;
  let articlePayload :=
    {| payload_title := create_title createArticleDto;
       payload_body := create_body createArticleDto;
       payload_author_id := jwt_id userJwtPayload;
       payload_tagList := tags;
       payload_slug := slug |} in
  article <- call (ArticleCreate articlePayload);;
  validateAndFetchArticleWithRelationsById (option_map article_id article).

(** Lines 30-38. *)
Definition create (createArticleDto : CreateArticleDto)
    (userJwtPayload : JwtPayloadType) : Prog Article :=
  RunInTransaction
    (createArticleWithTransaction createArticleDto userJwtPayload) Ret.

(** The condition of line 131, [title && title !== article.title], as a
    predicate of the DTO's title and the fetched article. *)
Definition title_changed (title : option str) (article : Article) : bool :=
  match title with
  | Some t => truthy t && negb (str_eqb t (article_title article))
  | None => false
  end.

(** Lines 123-142. *)
Definition update (id : Id) (updateArticleDto : UpdateArticleDto)
  : Prog (option Article) :=
  article <- validateAndFetchArticleById id;;
  let title := update_title updateArticleDto in
  slug <- match title with
          | Some t =>
              if truthy t && negb (str_eqb t (article_title article))
              then s <- slugify t;; Ret (Some s)
              else Ret None
          | None => Ret None
          end;;
  let payload :=
    {| upd_body := update_body updateArticleDto;
       upd_title := title;
       upd_slug := slug |} in
  updatedArticle <- call (ArticleUpdate article payload);;
  call (ArticleFindByIdWithRelations (Some (article_id updatedArticle))).

End WithSlugify.

End ArticlesService.

(** ** The collaborators, in memory

    The repositories, the tags service and the random source are outside
    src.  This module gives them the behaviour the spec describes, over the
    rows of a [DB]. *)

Module InMemory.

Definition with_tags (w : World) (l : list Tag) : World :=
  set_db w {| tags := l; articles := articles (db w);
              comments := comments (db w); users := users (db w) |}.

Definition with_articles (w : World) (l : list Article) : World :=
  set_db w {| tags := tags (db w); articles := l;
              comments := comments (db w); users := users (db w) |}.

Definition with_comments (w : World) (l : list Comment) : World :=
  set_db w {| tags := tags (db w); articles := articles (db w);
              comments := l; users := users (db w) |}.

Definition bump (w : World) (n : N) : World :=
  {| db := db w; next_id := (next_id w + n)%N; now := now w;
     entropy := entropy w; drawn := drawn w |}.

Definition id_text (n : N) : str :=
  lit (NilEmpty.string_of_uint (N.to_uint n)).

Definition findUser (w : World) (id : Id) : option User :=
  find (fun u => (user_id u =? id)%N) (users (db w)).

(** Modelled from the spec: [TagsService.findByNames].  Section 4.1: look up
    existing tags by the deduplicated name set. *)
Definition findByNames (names : list str) (w : World) : list Tag :=
  filter (fun t => Radash.mem (tag_name t) names) (tags (db w)).

Fixpoint has_dup (l : list str) : bool :=
  match l with
  | [] => false
  | x :: r => Radash.mem x r || has_dup r
  end.

Fixpoint new_tags (first : N) (time : Z) (names : list str) : list Tag :=
  match names with
  | [] => []
  | n :: r =>
      {| tag_id := id_text first; tag_name := n;
         tag_created_at := time; tag_updated_at := time |}
      :: new_tags (first + 1) time r
  end.

(** Modelled from the spec: [TagsService.createMany].  Section 4.1: bulk
    creation of one record per name; section 3: the name of a tag is unique,
    and uniqueness is enforced at creation time, so a batch that would store
    a name twice is refused. *)
Definition createMany (dtos : list CreateTagDto) (w : World)
  : World * Result (list Tag) :=
  let names := map dto_name dtos in
  if has_dup names
     || existsb (fun n => Radash.mem n (map tag_name (tags (db w)))) names
  then (w, Err StorageFailure)
  else
    let created := new_tags (next_id w) (now w) names in
    (bump (with_tags w (tags (db w) ++ created)) (N.of_nat (List.length names)),
     Ok created).

(** Modelled from the spec: [ArticleRepository.create].  Section 4.3, step
    4: persist the article with author, slug and resolved tags. *)
Definition articleCreate (p : ArticlePayload) (w : World)
  : World * Result (option Article) :=
  let a :=
    {| article_id := next_id w;
       article_title := payload_title p;
       article_slug := payload_slug p;
       article_body := payload_body p;
       article_author_id := payload_author_id p;
       article_author := None;
       article_tagList := payload_tagList p;
       article_created_at := now w;
       article_updated_at := now w |} in
  (bump (with_articles w (articles (db w) ++ [a])) 1, Ok (Some a)).

(** Modelled from the spec: [ArticleRepository.findById], the row with the
    id, if there is one. *)
Definition articleFindById (id : Id) (w : World) : option Article :=
  find (fun a => (article_id a =? id)%N) (articles (db w)).

(** Modelled from the spec: [ArticleRepository.findBySlug]. *)
Definition articleFindBySlug (slug : str) (w : World) : option Article :=
  find (fun a => str_eqb (article_slug a) slug) (articles (db w)).

Definition populate_article (w : World) (a : Article) : Article :=
  {| article_id := article_id a;
     article_title := article_title a;
     article_slug := article_slug a;
     article_body := article_body a;
     article_author_id := article_author_id a;
     article_author := findUser w (article_author_id a);
     article_tagList := article_tagList a;
     article_created_at := article_created_at a;
     article_updated_at := article_updated_at a |}.

(** Modelled from the spec: [ArticleRepository.findByIdWithRelations].
    Section 4.3, step 5: the article by id, including its relations (author,
    tags). *)
Definition articleFindByIdWithRelations (id : option Id) (w : World)
  : option Article :=
  match id with
  | Some id => option_map (populate_article w) (articleFindById id w)
  | None => None
  end.

Definition or_else {A} (o : option A) (d : A) : A :=
  match o with Some a => a | None => d end.

Definition merge (a : Article) (p : UpdatePayload) (time : Z) : Article :=
  {| article_id := article_id a;
     article_title := or_else (upd_title p) (article_title a);
     article_slug := or_else (upd_slug p) (article_slug a);
     article_body := or_else (upd_body p) (article_body a);
     article_author_id := article_author_id a;
     article_author := article_author a;
     article_tagList := article_tagList a;
     article_created_at := article_created_at a;
     article_updated_at := time |}.

(** Modelled from the spec: [ArticleRepository.update].  Section 4.4:
    persists the update; the fields the payload holds are written over the
    article's, the others stay. *)
Definition articleUpdate (a : Article) (p : UpdatePayload) (w : World)
  : World * Result Article :=
  match articleFindById (article_id a) w with
  | None => (w, Err StorageFailure)
  | Some _ =>
      let a' := merge a p (now w) in
      (with_articles w
         (map (fun r => if (article_id r =? article_id a)%N then a' else r)
              (articles (db w))),
       Ok a')
  end.

Definition populate_comment (w : World) (c : Comment) : Comment :=
  {| comment_id := comment_id c;
     comment_body := comment_body c;
     comment_article_id := comment_article_id c;
     comment_author_id := comment_author_id c;
     comment_author := findUser w (comment_author_id c);
     comment_created_at := comment_created_at c;
     comment_updated_at := comment_updated_at c |}.

(** Modelled from the spec: [CommentRepository.findById].  Section 3: a
    comment holds its author as a reference to a User; the fetched comment
    carries the user its [author_id] refers to. *)
Definition commentFindById (id : Id) (w : World) : option Comment :=
  option_map (populate_comment w)
    (find (fun c => (comment_id c =? id)%N) (comments (db w))).

(** Modelled from the spec: [CommentRepository.remove], which deletes the
    comment with the id. *)
Definition commentRemove (id : Id) (w : World) : World :=
  with_comments w
    (filter (fun c => negb (comment_id c =? id)%N) (comments (db w))).

(** The random source, [crypto.getRandomValues(new Uint8Array(length))]:
    the next [length] values of the world's entropy, each stored as an
    unsigned byte. *)
Definition getRandomValues (length : nat) (w : World) : World * list Z :=
  ({| db := db w; next_id := next_id w; now := now w;
      entropy := entropy w; drawn := (drawn w + length)%nat |},
   map (fun i => entropy w (drawn w + i)%nat mod 256) (seq 0 length)).

Definition handler : Handler :=
  fun X c =>
    match c in Call X return World -> World * Result X with
    | TagsFindByNames names => fun w => (w, Ok (Some (findByNames names w)))
    | TagsCreateMany dtos => createMany dtos
    | ArticleCreate p => articleCreate p
    | ArticleFindById id => fun w => (w, Ok (articleFindById id w))
    | ArticleFindBySlug slug => fun w => (w, Ok (articleFindBySlug slug w))
    | ArticleFindByIdWithRelations id =>
        fun w => (w, Ok (articleFindByIdWithRelations id w))
    | ArticleUpdate a p => articleUpdate a p
    | CommentFindById id => fun w => (w, Ok (commentFindById id w))
    | CommentRemove id => fun w => (commentRemove id w, Ok tt)
    | GetRandomValues n =>
        fun w => let '(w', v) := getRandomValues n w in (w', Ok v)
    end.

(** The same collaborators with a storage failure injected: every call that
    [fails] selects is refused. *)
Definition failing (fails : forall X, Call X -> bool) : Handler :=
  fun X c w => if fails X c then (w, Err StorageFailure) else handler X c w.

End InMemory.

(** ** Reading a trace *)

Module Trace.

Definition is_tag_call (e : Event) : bool :=
  match e with
  | Invoked (TagsFindByNames _) | Invoked (TagsCreateMany _) => true
  | _ => false
  end.

Definition lookup_of (e : Event) : option (list str) :=
  match e with Invoked (TagsFindByNames names) => Some names | _ => None end.

Definition creation_of (e : Event) : option (list CreateTagDto) :=
  match e with Invoked (TagsCreateMany dtos) => Some dtos | _ => None end.

Definition persisted_of (e : Event) : option ArticlePayload :=
  match e with Invoked (ArticleCreate p) => Some p | _ => None end.

Definition update_of (e : Event) : option (Article * UpdatePayload) :=
  match e with Invoked (ArticleUpdate a p) => Some (a, p) | _ => None end.

Definition removal_of (e : Event) : option Id :=
  match e with Invoked (CommentRemove id) => Some id | _ => None end.

Definition draw_of (e : Event) : option nat :=
  match e with Invoked (GetRandomValues n) => Some n | _ => None end.

Fixpoint collect {A} (f : Event -> option A) (t : list Event) : list A :=
  match t with
  | [] => []
  | e :: r => match f e with
              | Some a => a :: collect f r
              | None => collect f r
              end
  end.

(** The tag-service calls, tag lookups, tag creations, persisted article
    payloads, article updates, comment deletions and random draws of a
    trace, in order. *)
Definition tag_calls (t : list Event) : list Event := filter is_tag_call t.
Definition lookups := collect lookup_of.
Definition creations := collect creation_of.
Definition persisted := collect persisted_of.
Definition updates := collect update_of.
Definition removals := collect removal_of.
Definition draws := collect draw_of.

End Trace.

(** The three components of a run. *)
Definition world_of {A} (x : World * list Event * Result A) : World :=
  fst (fst x).
Definition trace_of {A} (x : World * list Event * Result A) : list Event :=
  snd (fst x).
Definition result_of {A} (x : World * list Event * Result A) : Result A :=
  snd x.

(** ** Sample worlds *)

Module Sample.

Definition no_table : N -> option str := fun _ => None.
Definition no_normalize : str -> str := fun s => s.

Definition alice : User := {| user_id := 7%N |}.
Definition bob : User := {| user_id := 8%N |}.

Definition as_alice : JwtPayloadType := {| jwt_id := 7%N |}.
Definition as_bob : JwtPayloadType := {| jwt_id := 8%N |}.
Definition as_carol : JwtPayloadType := {| jwt_id := 9%N |}.

Definition tag_go : Tag :=
  {| tag_id := lit "t1"; tag_name := lit "go";
     tag_created_at := 500; tag_updated_at := 500 |}.

Definition first_post : Article :=
  {| article_id := 1%N; article_title := lit "First post";
     article_slug := lit "first-post-uuuuuuuuuuu"; article_body := lit "text";
     article_author_id := 7%N; article_author := None;
     article_tagList := Some [tag_go];
     article_created_at := 600; article_updated_at := 600 |}.

Definition second_post : Article :=
  {| article_id := 2%N; article_title := lit "Second post";
     article_slug := lit "second-post-sssssssssss"; article_body := lit "more";
     article_author_id := 8%N; article_author := None;
     article_tagList := Some [];
     article_created_at := 700; article_updated_at := 700 |}.

(** A comment of alice on the first post, and a comment of the user with
    id 9 (carol), whose row is gone. *)
Definition remark : Comment :=
  {| comment_id := 3%N; comment_body := lit "nice";
     comment_article_id := 1%N; comment_author_id := 7%N;
     comment_author := None;
     comment_created_at := 800; comment_updated_at := 800 |}.

Definition orphan : Comment :=
  {| comment_id := 4%N; comment_body := lit "gone";
     comment_article_id := 1%N; comment_author_id := 9%N;
     comment_author := None;
     comment_created_at := 810; comment_updated_at := 810 |}.

Definition world : World :=
  {| db := {| tags := [tag_go];
              articles := [first_post; second_post];
              comments := [remark; orphan];
              users := [alice; bob] |};
     next_id := 10%N;
     now := 1000;
     entropy := fun i => Z.of_nat i + 11;
     drawn := 0 |}.

Definition hello : CreateArticleDto :=
  {| create_title := lit "Hello, World!";
     create_body := lit "body";
     create_tagList := Some [lit "go"; lit "rust"; lit "go"] |}.

Definition untagged : CreateArticleDto :=
  {| create_title := lit "Hello, World!";
     create_body := lit "body";
     create_tagList := Some [] |}.

(** The collaborators with the article table refusing every insert. *)
Definition article_insert_fails : Handler :=
  InMemory.failing
    (fun X c => match c with ArticleCreate _ => true | _ => false end).

End Sample.

(** ** The rest of the two services

    [CommentsService.create], the listings and [ArticlesService.remove]
    call collaborators the methods above do not reach: the comment
    repository's [create] and listing, the users service, the article
    repository's listing and [remove].  Their command trees are [Wide.Tree]:
    the calls of [Call] and these further ones. *)

Record IPaginationOptions := { page : Z; limit : Z }.

Module Wide.

Inductive More : Type -> Type :=
| CommentCreate (payload : CommentPayload) : More Comment
| UserFindById (id : Id) : More (option User)
| CommentFindAllWithPagination (paginationOptions : IPaginationOptions)
    (article_id : Id) : More (list Comment)
| ArticleFindAllWithPagination (paginationOptions : IPaginationOptions)
  : More (list Article)
| ArticleRemove (id : Id) : More unit.

(** What a run of a wide tree leaves in its trace. *)
Inductive Step :=
| Core (e : Event)
| InvokedMore {X} (c : More X).

Inductive Tree : Type -> Type :=
| Done {A} (a : A) : Tree A
| Raise {A} (e : Exception) : Tree A
| Ask {A X} (c : Call X) (k : X -> Tree A) : Tree A
| AskMore {A X} (c : More X) (k : X -> Tree A) : Tree A
| Atomic {A X} (body : Tree X) (k : X -> Tree A) : Tree A.

Fixpoint bind {A B} (p : Tree A) : (A -> Tree B) -> Tree B :=
  match p in Tree A return (A -> Tree B) -> Tree B with
  | Done a => fun f => f a
  | Raise e => fun _ => Raise e
  | Ask c k => fun f => Ask c (fun x => bind (k x) f)
  | AskMore c k => fun f => AskMore c (fun x => bind (k x) f)
  | Atomic body k => fun f => Atomic body (fun x => bind (k x) f)
  end.

Definition more {X} (c : More X) : Tree X := AskMore c Done.

(** A method of the first part, as a wide tree. *)
Fixpoint lift {A} (p : Prog A) : Tree A :=
  match p in Prog A return Tree A with
  | Ret a => Done a
  | Throw e => Raise e
  | Do c k => Ask c (fun x => lift (k x))
  | RunInTransaction body k => Atomic (lift body) (fun x => lift (k x))
  end.

Definition HandlerMore := forall X, More X -> World -> World * Result X.

Fixpoint run {A} (h : Handler) (g : HandlerMore) (p : Tree A) (w : World)
  : World * list Step * Result A :=
  match p with
  | Done a => (w, [], Ok a)
  | Raise e => (w, [], Err e)
  | Ask c k =>
      match h _ c w with
      | (w1, Ok x) =>
          let '(w2, t, r) := run h g (k x) w1 in
          (w2, Core (Invoked c) :: t, r)
      | (w1, Err e) => (w1, [Core (Invoked c)], Err e)
      end
  | AskMore c k =>
      match g _ c w with
      | (w1, Ok x) =>
          let '(w2, t, r) := run h g (k x) w1 in
          (w2, InvokedMore c :: t, r)
      | (w1, Err e) => (w1, [InvokedMore c], Err e)
      end
  | Atomic body k =>
      match run h g body w with
      | (w1, t1, Ok x) =>
          let '(w2, t2, r) := run h g (k x) w1 in
          (w2, Core Begin :: t1 ++ Core Commit :: t2, r)
      | (w1, t1, Err e) =>
          (rollback w w1, Core Begin :: t1 ++ [Core Rollback], Err e)
      end
  end.

(** Reading a wide trace. *)
Definition comment_created_of (s : Step) : option CommentPayload :=
  match s with InvokedMore (CommentCreate p) => Some p | _ => None end.

Definition user_lookup_of (s : Step) : option Id :=
  match s with InvokedMore (UserFindById id) => Some id | _ => None end.

Definition comment_listing_of (s : Step)
  : option (IPaginationOptions * Id) :=
  match s with
  | InvokedMore (CommentFindAllWithPagination o a) => Some (o, a)
  | _ => None
  end.

Definition is_bracket (s : Step) : bool :=
  match s with
  | Core Begin | Core Commit | Core Rollback => true
  | _ => false
  end.

Fixpoint collect {A} (f : Step -> option A) (t : list Step) : list A :=
  match t with
  | [] => []
  | s :: r => match f s with
              | Some a => a :: collect f r
              | None => collect f r
              end
  end.

Definition comments_created := collect comment_created_of.
Definition user_lookups := collect user_lookup_of.
Definition comment_listings := collect comment_listing_of.

Declare Scope tree_scope.
Delimit Scope tree_scope with tree.
Notation "x <- p ;; q" := (bind p (fun x => q))
  (at level 61, p at next level, right associativity) : tree_scope.

End Wide.

(** *** CommentsService, the rest (comments.service.ts, 22-58) *)

Module Comments.

Import Wide.
Local Open Scope tree_scope.

(** [comment.author = user], line 38. *)
Definition set_author (comment : Comment) (user : User) : Comment :=
  {| comment_id := comment_id comment;
     comment_body := comment_body comment;
     comment_article_id := comment_article_id comment;
     comment_author_id := comment_author_id comment;
     comment_author := Some user;
     comment_created_at := comment_created_at comment;
     comment_updated_at := comment_updated_at comment |}.

(** Lines 22-42. *)
Definition create (article_id : Id) (body : str)
    (userJwtPayload : JwtPayloadType) : Tree Comment :=
  let clonedPayload :=
    {| cp_article_id := article_id;
       cp_body := body;
       cp_author_id := jwt_id userJwtPayload |} in
  comment <- more (CommentCreate clonedPayload);;
  user <- more (UserFindById (jwt_id userJwtPayload));;
  match user with
  | Some user => Done (set_author comment user)
  | None => Done comment
  end.

(** Lines 44-58. *)
Definition findAllWithPagination (paginationOptions : IPaginationOptions)
    (article_id : Id) : Tree (list Comment) :=
  more (CommentFindAllWithPagination
          {| page := page paginationOptions;
             limit := limit paginationOptions |}
          article_id).

End Comments.

(** *** ArticlesService, the rest (articles.service.ts, 106-174) *)

Module Articles.

Import Wide.
Local Open Scope tree_scope.

(** Lines 106-117. *)
Definition findAllWithPagination (paginationOptions : IPaginationOptions)
  : Tree (list Article) :=
  more (ArticleFindAllWithPagination
          {| page := page paginationOptions;
             limit := limit paginationOptions |}).

(** Lines 119-121. *)
Definition findOne (id : Id) : Prog (option Article) :=
  call (ArticleFindByIdWithRelations (Some id)).

(** Lines 144-146. *)
Definition remove (id : Id) : Tree unit := more (ArticleRemove id).

(** Lines 148-156. *)
Definition createComment (slug : str) (body : str)
    (userJwtPayload : JwtPayloadType) : Tree Comment :=
  article <- lift (ArticlesService.validateAndFetchArticleBySlug slug);;
  Comments.create (article_id article) body userJwtPayload.

(** Lines 158-174. *)
Definition findAllCommentsWithPagination
    (paginationOptions : IPaginationOptions) (slug : str)
  : Tree (list Comment) :=
  article <- lift (ArticlesService.validateAndFetchArticleBySlug slug);;
  Comments.findAllWithPagination
    {| page := page paginationOptions; limit := limit paginationOptions |}
    (article_id article).

End Articles.

(** ** Shapes of slugs and traces, for the statements below *)

Module Shape.

Definition dash : N := 45%N.

(** No dash in front, none at the end, no two in a row. *)
Fixpoint no_double_dash (s : str) : bool :=
  match s with
  | a :: ((b :: _) as r) =>
      negb ((a =? dash)%N && (b =? dash)%N) && no_double_dash r
  | _ => true
  end.

Definition starts_with_dash (s : str) : bool :=
  match s with c :: _ => (c =? dash)%N | [] => false end.

Definition ends_with_dash (s : str) : bool := starts_with_dash (rev s).

Definition tidy (s : str) : bool :=
  negb (starts_with_dash s) && negb (ends_with_dash s) && no_double_dash s.

(** The 256 values of a byte. *)
Definition bytes : list Z := map Z.of_nat (seq 0 256).

(** The bytes the mask sends to the symbol [c]. *)
Definition bytes_of_symbol (c : N) : list Z :=
  filter (fun b => (Slug.symbol b =? c)%N) bytes.

(** The tags a lookup answered, and their names. *)
Definition found_tags (tags : option (list Tag)) : list Tag :=
  match tags with Some ts => ts | None => [] end.

Definition found_names (tags : option (list Tag)) : list str :=
  map tag_name (found_tags tags).

End Shape.

(** A user service that is down, and one that knows nobody. *)
Module Fixture.

Definition users_down : Wide.HandlerMore :=
  fun X c w =>
    match c in Wide.More X return World * Result X with
    | Wide.CommentCreate p =>
        (w, Ok {| comment_id := next_id w;
                  comment_body := cp_body p;
                  comment_article_id := cp_article_id p;
                  comment_author_id := cp_author_id p;
                  comment_author := None;
                  comment_created_at := now w;
                  comment_updated_at := now w |})
    | Wide.UserFindById _ => (w, Err StorageFailure)
    | Wide.CommentFindAllWithPagination _ _ => (w, Ok [])
    | Wide.ArticleFindAllWithPagination _ => (w, Ok [])
    | Wide.ArticleRemove _ => (w, Ok tt)
    end.

(** A tags service whose lookup answers [null]. *)
Definition lookup_null : Handler :=
  fun X c w =>
    match c in Call X return World * Result X with
    | TagsFindByNames _ => (w, Ok None)
    | c' => InMemory.handler _ c' w
    end.

(** Requests with a tag name that every plain object inherits. *)
Definition inherited_twice : CreateArticleDto :=
  {| create_title := lit "Hello, World!";
     create_body := lit "body";
     create_tagList :=
       Some [lit "constructor"; lit "constructor"; lit "rust"] |}.

Definition stored_and_inherited : CreateArticleDto :=
  {| create_title := lit "Hello, World!";
     create_body := lit "body";
     create_tagList := Some [lit "go"; lit "constructor"] |}.

Definition only_inherited : CreateArticleDto :=
  {| create_title := lit "Hello, World!";
     create_body := lit "body";
     create_tagList := Some [lit "toString"] |}.

(** A world without rows. *)
Definition blank : World :=
  {| db := {| tags := []; articles := []; comments := []; users := [] |};
     next_id := 1%N;
     now := 2000;
     entropy := fun i => Z.of_nat i;
     drawn := 0 |}.

End Fixture.

(** * Properties *)

(** ** Strings and the third-party helpers *)

Section StringFacts.

Lemma str_eqb_eq a b : str_eqb a b = true <-> a = b.
Proof.
  unfold str_eqb. destruct (list_eq_dec N.eq_dec a b); split; congruence.
Qed.

Lemma str_eqb_neq a b : str_eqb a b = false <-> a <> b.
Proof.
  unfold str_eqb. destruct (list_eq_dec N.eq_dec a b); split; congruence.
Qed.

Lemma str_eqb_refl a : str_eqb a a = true.
Proof. now apply str_eqb_eq. Qed.

Lemma mem_In x l : Radash.mem x l = true <-> In x l.
Proof.
  unfold Radash.mem. rewrite existsb_exists. split.
  - intros [y [Hy E]]. apply str_eqb_eq in E. now subst.
  - intros H. exists x. split; [assumption | apply str_eqb_refl].
Qed.

Lemma mem_not_In x l : Radash.mem x l = false <-> ~ In x l.
Proof.
  rewrite <- mem_In. destruct (Radash.mem x l); split; congruence.
Qed.

Lemma trimStart_Forall (P : N -> Prop) s :
  Forall P s -> Forall P (trimStart s).
Proof.
  induction 1 as [|c r Hc Hr IH]; simpl; [constructor|].
  destruct (is_space c); [assumption | now constructor].
Qed.

Lemma trim_Forall (P : N -> Prop) s : Forall P s -> Forall P (trim s).
Proof.
  intros H. unfold trim, trimEnd.
  apply Forall_rev, trimStart_Forall, Forall_rev, trimStart_Forall, H.
Qed.

End StringFacts.

(** ** The random suffix *)

Section SuffixFacts.

Import Slug.

Lemma land_63_range b : 0 <= Z.land b 63 < 64.
Proof.
  change 63 with (Z.ones 6). rewrite Z.land_ones by lia.
  change (2 ^ 6) with 64. apply Z.mod_pos_bound. lia.
Qed.

Lemma charset_length : List.length charset = 64%nat.
Proof. reflexivity. Qed.

Lemma index_text_masked b :
  index_text charset (Z.land b 63) = [symbol b].
Proof.
  pose proof (land_63_range b) as R. unfold index_text, symbol.
  destruct (Z.land b 63 <? 0) eqn:E; [apply Z.ltb_lt in E; lia|].
  assert (L : (Z.to_nat (Z.land b 63) < List.length charset)%nat)
    by (rewrite charset_length; lia).
  destruct (nth_error charset (Z.to_nat (Z.land b 63))) eqn:N1.
  - now rewrite (nth_error_nth _ _ _ N1).
  - apply nth_error_None in N1. lia.
Qed.

Lemma symbol_in_charset b : In (symbol b) charset.
Proof.
  unfold symbol. apply nth_In. rewrite charset_length.
  pose proof (land_63_range b). lia.
Qed.

Lemma suffix_loop_map rv n : forall i id,
  suffix_loop rv i n id
  = id ++ map (fun j => symbol (nth j rv 0)) (seq i n).
Proof.
  induction n as [|n IH]; intros i id; simpl.
  - now rewrite app_nil_r.
  - rewrite IH. unfold u8_at_and. rewrite index_text_masked.
    now rewrite <- app_assoc.
Qed.

Lemma suffix_of_map n rv :
  suffix_of n rv = map (fun j => symbol (nth j rv 0)) (seq 0 n).
Proof. unfold suffix_of. now rewrite suffix_loop_map. Qed.

Lemma suffix_of_length n rv : List.length (suffix_of n rv) = n.
Proof. now rewrite suffix_of_map, length_map, length_seq. Qed.

Lemma suffix_of_in_charset n rv :
  Forall (fun c => In c charset) (suffix_of n rv).
Proof.
  rewrite suffix_of_map. apply Forall_forall. intros c H.
  apply in_map_iff in H. destruct H as [j [<- _]]. apply symbol_in_charset.
Qed.

End SuffixFacts.

(** C5.  With its default length, [generateUniqueSuffix] draws 11 random
    bytes once and returns, whatever the bytes are, a string of exactly 11
    characters; the character at position [j] is the alphabet's symbol at
    index [byte_j & 63], so every character belongs to the 64-symbol
    alphabet. *)
Theorem generateUniqueSuffix_default :
  List.length Slug.charset = 64%nat
  /\ ArticlesService.generateUniqueSuffix None
     = Do (GetRandomValues 11) (fun rv => Ret (Slug.suffix_of 11 rv))
  /\ forall randomValues : list Z,
       List.length (Slug.suffix_of 11 randomValues) = 11%nat
       /\ Slug.suffix_of 11 randomValues
          = map (fun j => nth (Z.to_nat (Z.land (nth j randomValues 0) 63))
                              Slug.charset 0%N)
                (seq 0 11)
       /\ Forall (fun c => In c Slug.charset) (Slug.suffix_of 11 randomValues).
Proof.
  split; [reflexivity|]. split; [reflexivity|]. intros rv.
  split; [apply suffix_of_length|].
  split; [apply suffix_of_map | apply suffix_of_in_charset].
Qed.

(** ** The slug *)

Section SlugFacts.

Import Slug.

Variable charMap : N -> option str.
Variable normalize : str -> str.

Lemma strict_filter_kept s : Forall kept (SlugifyLib.strict_filter s).
Proof.
  unfold SlugifyLib.strict_filter. apply Forall_forall. intros c H.
  apply filter_In in H. exact (proj2 H).
Qed.

Lemma replace_spaces_joined s : forall inrun,
  Forall kept s -> Forall joined (SlugifyLib.replace_spaces inrun s).
Proof.
  induction s as [|c r IH]; intros inrun H; simpl; [constructor|].
  inversion H as [|? ? Hc Hr]; subst.
  destruct (is_space c) eqn:Sp.
  - destruct inrun; [now apply IH|].
    simpl. constructor; [reflexivity | now apply IH].
  - constructor; [|now apply IH].
    unfold kept in Hc. rewrite Sp, orb_false_r in Hc.
    unfold joined. now rewrite Hc.
Qed.

Lemma lower_unit_slug c : joined c -> is_slug_unit (lower_unit c) = true.
Proof.
  unfold joined, is_slug_unit, lower_unit, is_upper, is_lower, is_digit.
  intros H.
  destruct ((65 <=? c) && (c <=? 90))%N eqn:U.
  - apply andb_true_iff in U. destruct U as [U1 U2].
    apply N.leb_le in U1, U2.
    assert (L : ((97 <=? c + 32) && (c + 32 <=? 122))%N = true).
    { apply andb_true_iff. split; apply N.leb_le; lia. }
    now rewrite L.
  - exact H.
Qed.

Lemma baseSlug_lower_case title :
  forallb is_slug_unit (ArticlesService.baseSlug charMap normalize title)
  = true.
Proof.
  unfold ArticlesService.baseSlug, SlugifyLib.slugify. simpl.
  apply forallb_forall. intros c H. unfold toLowerCase in H.
  apply in_map_iff in H. destruct H as [c0 [<- H0]].
  apply lower_unit_slug.
  revert c0 H0. apply Forall_forall.
  apply replace_spaces_joined, trim_Forall, strict_filter_kept.
Qed.

End SlugFacts.

(** C4, as the code has it.  [slugify(title)] draws 11 random bytes and
    returns the base slug, a dash and the suffix.  The base slug holds only
    lower-case ASCII letters, digits and the dash; the suffix is 11
    characters of the 64-symbol alphabet, which also holds upper-case letters
    and the underscore. *)
Theorem slugify_shape (charMap : N -> option str) (normalize : str -> str)
    (title : str) :
  ArticlesService.slugify charMap normalize title
  = Do (GetRandomValues 11)
       (fun rv => Ret (ArticlesService.baseSlug charMap normalize title
                       ++ lit "-" ++ Slug.suffix_of 11 rv))
  /\ forallb Slug.is_slug_unit
       (ArticlesService.baseSlug charMap normalize title) = true
  /\ forall rv : list Z,
       List.length (Slug.suffix_of 11 rv) = 11%nat
       /\ Forall (fun c => In c Slug.charset) (Slug.suffix_of 11 rv).
Proof.
  split; [reflexivity|]. split; [apply baseSlug_lower_case|].
  intros rv. split; [apply suffix_of_length | apply suffix_of_in_charset].
Qed.

(** The example of the spec, section 8. *)
Example baseSlug_hello_world :
  ArticlesService.baseSlug Sample.no_table Sample.no_normalize
    (lit "Hello, World!")
  = lit "hello-world"
  /\ ArticlesService.baseSlug Sample.no_table Sample.no_normalize
       (lit "  Tabs and   spaces -- (v1.2) ")
     = lit "tabs-and-spaces-v12".
Proof. split; reflexivity. Qed.

(** C4, as the spec states it, fails: for the title of the spec's own
    example and random bytes 11, 12, ..., the slug holds upper-case
    letters. *)
Lemma slugify_upper_case_in_slug :
  result_of (run InMemory.handler
               (ArticlesService.slugify Sample.no_table Sample.no_normalize
                  (lit "Hello, World!"))
               Sample.world)
  = Ok (lit "hello-world-T198340PX75")
  /\ forallb Slug.is_slug_unit (lit "hello-world-T198340PX75") = false.
Proof. split; reflexivity. Qed.

(** ** Runs *)

Section RunFacts.

Variable h : Handler.

Lemma run_bind {A B} (p : Prog A) (f : A -> Prog B) : forall w,
  run h (bind p f) w
  = match run h p w with
    | (w1, t1, Ok a) =>
        let '(w2, t2, r) := run h (f a) w1 in (w2, t1 ++ t2, r)
    | (w1, t1, Err e) => (w1, t1, Err e)
    end.
Proof.
  induction p as [A a|A e|A X c k IH|A X body _ k IH]; intros w; simpl.
  - now destruct (run h (f a) w) as [[w2 t2] r].
  - reflexivity.
  - destruct (h X c w) as [w1 [x|e]]; [|reflexivity].
    rewrite IH. destruct (run h (k x) w1) as [[w2 t2] [a|e]]; [|reflexivity].
    now destruct (run h (f a) w2) as [[w3 t3] r].
  - destruct (run h body w) as [[w1 t1] [x|e]]; [|reflexivity].
    rewrite IH. destruct (run h (k x) w1) as [[w2 t2] [a|e]].
    + destruct (run h (f a) w2) as [[w3 t3] r].
      simpl. now rewrite <- app_assoc.
    + reflexivity.
Qed.

Lemma run_call {X} (c : Call X) w :
  run h (call c) w
  = match h X c w with
    | (w1, Ok x) => (w1, [Invoked c], Ok x)
    | (w1, Err e) => (w1, [Invoked c], Err e)
    end.
Proof. unfold call. simpl. now destruct (h X c w) as [w1 [x|e]]. Qed.

End RunFacts.

(** C1.  [create] runs the whole flow of [createArticleWithTransaction]
    (tag lookup, tag creation, article persistence, re-fetch) between the
    begin and the end of one transaction.  Whatever the collaborators do and
    wherever one of them fails, a failed [create] ends with a rollback and
    leaves the stored rows as they were: no article row, no tag row of the
    failed request. *)
Theorem create_atomic (charMap : N -> option str) (normalize : str -> str)
    (h : Handler) (dto : CreateArticleDto) (user : JwtPayloadType)
    (w : World) :
  match run h (ArticlesService.createArticleWithTransaction
                 charMap normalize dto user) w with
  | (w1, flow, Ok article) =>
      run h (ArticlesService.create charMap normalize dto user) w
      = (w1, Begin :: flow ++ [Commit], Ok article)
  | (w1, flow, Err e) =>
      exists w',
        run h (ArticlesService.create charMap normalize dto user) w
        = (w', Begin :: flow ++ [Rollback], Err e)
        /\ db w' = db w
  end.
Proof.
  unfold ArticlesService.create. simpl.
  destruct (run h (ArticlesService.createArticleWithTransaction
                     charMap normalize dto user) w) as [[w1 flow] [a|e]].
  - reflexivity.
  - eexists. split; reflexivity.
Qed.

(** A failure injected after tag creation and before the article is stored:
    the flow alone would leave the new tag behind, [create] leaves none. *)
Example create_failure_injected :
  let flow := ArticlesService.createArticleWithTransaction
                Sample.no_table Sample.no_normalize Sample.hello
                Sample.as_alice in
  let whole := ArticlesService.create
                 Sample.no_table Sample.no_normalize Sample.hello
                 Sample.as_alice in
  map tag_name
      (tags (db (world_of (run Sample.article_insert_fails flow Sample.world))))
  = [lit "go"; lit "rust"]
  /\ result_of (run Sample.article_insert_fails whole Sample.world)
     = Err StorageFailure
  /\ db (world_of (run Sample.article_insert_fails whole Sample.world))
     = db Sample.world.
Proof. repeat split; reflexivity. Qed.

(** C7.  When the request's tag list is empty or absent, the tag block of
    the creation flow is the plain value of the empty tag list; a run of
    [create] makes no call to the tags service, under any behaviour of the
    collaborators, and the one payload handed to the article repository
    carries the empty tag list (no payload at all if the random source
    fails before). *)
Theorem create_without_tags (charMap : N -> option str)
    (normalize : str -> str) (h : Handler) (dto : CreateArticleDto)
    (user : JwtPayloadType) (w : World) :
  create_tagList dto = None \/ create_tagList dto = Some [] ->
  let x := run h (ArticlesService.create charMap normalize dto user) w in
  ArticlesService.createArticle_tags (create_tagList dto) = Ret (Some [])
  /\ Trace.tag_calls (trace_of x) = []
  /\ Trace.lookups (trace_of x) = []
  /\ Trace.creations (trace_of x) = []
  /\ match h _ (GetRandomValues 11) w with
     | (_, Ok rv) =>
         Trace.persisted (trace_of x)
         = [ {| payload_title := create_title dto;
                payload_body := create_body dto;
                payload_author_id := jwt_id user;
                payload_tagList := Some [];
                payload_slug :=
                  ArticlesService.baseSlug charMap normalize (create_title dto)
                  ++ lit "-" ++ Slug.suffix_of 11 rv |} ]
     | (_, Err _) => Trace.persisted (trace_of x) = []
     end.
Proof.
  intros Hempty x. subst x.
  unfold ArticlesService.create, ArticlesService.createArticleWithTransaction.
  assert (E : ArticlesService.createArticle_tags (create_tagList dto)
              = Ret (Some [])).
  { destruct Hempty as [-> | ->]; reflexivity. }
  split; [exact E|].
  rewrite E. clear E Hempty. cbn [bind]. unfold ArticlesService.slugify.
  cbn [bind ArticlesService.generateUniqueSuffix call run].
  destruct (h _ (GetRandomValues 11) w) as [w1 [rv|e]]; [|repeat split].
  cbn [bind run].
  match goal with
  | |- context [h _ (ArticleCreate ?p) w1] =>
      destruct (h _ (ArticleCreate p) w1) as [w2 [a|e]]; [|repeat split]
  end.
  unfold ArticlesService.validateAndFetchArticleWithRelationsById.
  cbn [bind call run].
  destruct (h _ (ArticleFindByIdWithRelations (option_map article_id a)) w2)
    as [w3 [[found|]|e]]; repeat split.
Qed.

Lemma create_without_tags_witness :
  (create_tagList Sample.untagged = None
   \/ create_tagList Sample.untagged = Some [])
  /\ Trace.tag_calls
       (trace_of (run InMemory.handler
                    (ArticlesService.create Sample.no_table Sample.no_normalize
                       Sample.untagged Sample.as_alice)
                    Sample.world)) = [].
Proof.
  split; [right; reflexivity|].
  apply (create_without_tags Sample.no_table Sample.no_normalize
           InMemory.handler Sample.untagged Sample.as_alice Sample.world).
  right; reflexivity.
Defined.

(** ** Comment removal *)

Section RemovalFacts.

Lemma find_after_filter {A} (f : A -> bool) (l : list A) :
  find f (filter (fun x => negb (f x)) l) = None.
Proof.
  induction l as [|x r IH]; simpl; [reflexivity|].
  destruct (f x) eqn:E; simpl; [assumption|]. now rewrite E.
Qed.

Lemma removed_not_found id w :
  InMemory.commentFindById id (InMemory.commentRemove id w) = None.
Proof.
  unfold InMemory.commentFindById, InMemory.commentRemove. simpl.
  now rewrite (find_after_filter (fun c => (comment_id c =? id)%N)).
Qed.

Lemma author_differs_authored c actor :
  CommentsService.author_differs c actor
  = negb (CommentsService.authored_by c actor).
Proof.
  unfold CommentsService.author_differs, CommentsService.authored_by.
  now destruct (comment_author c).
Qed.

(** [removeComment] hands the comment over to [CommentsService.remove]
    whatever article the slug resolved to. *)
Lemma removeComment_ignores_article (h : Handler) id slug actor w :
  run h (ArticlesService.removeComment id slug actor) w
  = match h _ (ArticleFindBySlug slug) w with
    | (w1, Ok (Some _)) =>
        let '(w2, t, r) := run h (CommentsService.remove id actor) w1 in
        (w2, Invoked (ArticleFindBySlug slug) :: t, r)
    | (w1, Ok None) =>
        (w1, [Invoked (ArticleFindBySlug slug)],
         Err ArticlesService.article_not_found)
    | (w1, Err e) => (w1, [Invoked (ArticleFindBySlug slug)], Err e)
    end.
Proof.
  unfold ArticlesService.removeComment. rewrite run_bind.
  unfold ArticlesService.validateArticle. cbn [bind call run].
  destruct (h _ (ArticleFindBySlug slug) w) as [w1 [[a|]|e]]; reflexivity.
Qed.

Lemma remove_in_memory id actor w :
  run InMemory.handler (CommentsService.remove id actor) w
  = match InMemory.commentFindById id w with
    | None =>
        (w, [Invoked (CommentFindById id)],
         Err CommentsService.comment_not_found)
    | Some c =>
        if CommentsService.authored_by c actor
        then (InMemory.commentRemove id w,
              [Invoked (CommentFindById id); Invoked (CommentRemove id)],
              Ok tt)
        else (w, [Invoked (CommentFindById id)],
              Err CommentsService.not_authorized)
    end.
Proof.
  unfold CommentsService.remove, CommentsService.validateAndFetchComment.
  cbn [bind call run InMemory.handler].
  destruct (InMemory.commentFindById id w) as [c|]; [|reflexivity].
  cbn [bind run]. rewrite author_differs_authored.
  destruct (CommentsService.authored_by c actor); reflexivity.
Qed.

End RemovalFacts.

(** C8.  Comment removal fetches the comment by id first.  If there is
    none it signals NotFound; if there is one and the actor is not its
    author it signals Unauthorized; in both cases the comment repository's
    remove is not called and the stored rows stay as they were.  If the
    actor is the author, the comment is deleted and fetching it by id
    finds nothing any more. *)
Theorem comment_removal (id : Id) (actor : JwtPayloadType) (w : World) :
  let x := run InMemory.handler (CommentsService.remove id actor) w in
  match InMemory.commentFindById id w with
  | None =>
      x = (w, [Invoked (CommentFindById id)],
           Err (NotFoundException 404 "id" "Comment not found"))
      /\ Trace.removals (trace_of x) = []
  | Some c =>
      if CommentsService.authored_by c actor
      then result_of x = Ok tt
           /\ Trace.removals (trace_of x) = [id]
           /\ comments (db (world_of x))
              = filter (fun c => negb (comment_id c =? id)%N) (comments (db w))
           /\ InMemory.commentFindById id (world_of x) = None
      else x = (w, [Invoked (CommentFindById id)],
                Err (UnauthorizedException 401 "id"
                       "Not unauthorized to delete the comment"))
           /\ Trace.removals (trace_of x) = []
  end.
Proof.
  intros x. subst x. rewrite remove_in_memory.
  destruct (InMemory.commentFindById id w) as [c|]; [|split; reflexivity].
  destruct (CommentsService.authored_by c actor).
  - repeat split. apply removed_not_found.
  - split; reflexivity.
Qed.

(** The three cases of C8 in the sample world: bob may not delete alice's
    comment, alice may, and comment 99 does not exist. *)
Example comment_removal_cases :
  result_of (run InMemory.handler (CommentsService.remove 3%N Sample.as_bob)
               Sample.world)
  = Err CommentsService.not_authorized
  /\ comments (db (world_of (run InMemory.handler
                               (CommentsService.remove 3%N Sample.as_alice)
                               Sample.world)))
     = [Sample.orphan]
  /\ result_of (run InMemory.handler (CommentsService.remove 99%N Sample.as_bob)
                  Sample.world)
     = Err CommentsService.comment_not_found.
Proof. repeat split; reflexivity. Qed.

(** C9.  [removeComment] resolves the article by slug only to check that it
    exists.  For an existing slug and an existing comment whose author is
    the actor, the comment is deleted, with no condition on the comment's
    [article_id]: also when it is not the id of the article the slug
    resolves to. *)
Theorem removeComment_any_article (id : Id) (slug : str)
    (actor : JwtPayloadType) (w : World) (a : Article) (c : Comment) :
  InMemory.articleFindBySlug slug w = Some a ->
  InMemory.commentFindById id w = Some c ->
  CommentsService.authored_by c actor = true ->
  let x := run InMemory.handler
             (ArticlesService.removeComment id slug actor) w in
  x = (InMemory.commentRemove id w,
       [Invoked (ArticleFindBySlug slug); Invoked (CommentFindById id);
        Invoked (CommentRemove id)],
       Ok tt)
  /\ InMemory.commentFindById id (world_of x) = None.
Proof.
  intros Ha Hc Hauth x. subst x. rewrite removeComment_ignores_article.
  cbn [InMemory.handler]. rewrite Ha, remove_in_memory, Hc, Hauth.
  split; [reflexivity | apply removed_not_found].
Qed.

(** In the sample world alice's comment is on article 1; she deletes it
    through the slug of article 2. *)
Lemma removeComment_any_article_witness :
  InMemory.articleFindBySlug (lit "second-post-sssssssssss") Sample.world
  = Some Sample.second_post
  /\ option_map comment_article_id (InMemory.commentFindById 3%N Sample.world)
     = Some 1%N
  /\ article_id Sample.second_post = 2%N
  /\ InMemory.commentFindById 3%N
       (world_of (run InMemory.handler
                    (ArticlesService.removeComment 3%N
                       (lit "second-post-sssssssssss") Sample.as_alice)
                    Sample.world))
     = None.
Proof.
  split; [reflexivity|]. split; [reflexivity|]. split; [reflexivity|].
  apply (removeComment_any_article 3%N (lit "second-post-sssssssssss")
           Sample.as_alice Sample.world Sample.second_post
           (InMemory.populate_comment Sample.world Sample.remark));
    reflexivity.
Defined.

(** C10.  Authorship is decided on the author object the fetched comment
    carries.  When the comment repository returns a comment without its
    author relation, [remove] signals Unauthorized for every actor, the one
    whose id is the comment's [author_id] included, and the repository's
    remove is not called. *)
Theorem remove_without_author_relation (h : Handler) (id : Id)
    (actor : JwtPayloadType) (w w1 : World) (c : Comment) :
  h _ (CommentFindById id) w = (w1, Ok (Some c)) ->
  comment_author c = None ->
  let x := run h (CommentsService.remove id actor) w in
  x = (w1, [Invoked (CommentFindById id)],
       Err (UnauthorizedException 401 "id"
              "Not unauthorized to delete the comment"))
  /\ Trace.removals (trace_of x) = [].
Proof.
  intros Hfetch Hnone x. subst x.
  unfold CommentsService.remove, CommentsService.validateAndFetchComment.
  cbn [bind call run]. rewrite Hfetch. cbn [bind run].
  unfold CommentsService.author_differs. rewrite Hnone.
  split; reflexivity.
Qed.

(** The sample world's comment 4 was written by user 9, whose row is gone:
    the fetched comment has no author, and user 9 may not delete it. *)
Lemma remove_without_author_relation_witness :
  InMemory.handler _ (CommentFindById 4%N) Sample.world
  = (Sample.world, Ok (Some Sample.orphan))
  /\ comment_author Sample.orphan = None
  /\ comment_author_id Sample.orphan = jwt_id Sample.as_carol
  /\ run InMemory.handler (CommentsService.remove 4%N Sample.as_carol)
       Sample.world
     = (Sample.world, [Invoked (CommentFindById 4%N)],
        Err CommentsService.not_authorized)
  /\ comments (db Sample.world) = [Sample.remark; Sample.orphan].
Proof.
  split; [reflexivity|]. split; [reflexivity|]. split; [reflexivity|].
  split; [|reflexivity].
  apply (remove_without_author_relation InMemory.handler 4%N Sample.as_carol
           Sample.world Sample.world Sample.orphan); reflexivity.
Defined.

(** ** Article update *)

Section UpdateFacts.

Variable charMap : N -> option str.
Variable normalize : str -> str.

Lemma title_changed_differs title a :
  ArticlesService.title_changed title a = true ->
  exists t, title = Some t /\ t <> [] /\ t <> article_title a.
Proof.
  destruct title as [t|]; simpl; [|discriminate].
  intros H. apply andb_true_iff in H. destruct H as [Ht Hd].
  exists t. split; [reflexivity|]. split.
  - destruct t; [discriminate | congruence].
  - apply str_eqb_neq. now destruct (str_eqb t (article_title a)).
Qed.

Lemma title_unchanged a :
  ArticlesService.title_changed (Some (article_title a)) a = false.
Proof. simpl. rewrite str_eqb_refl. apply andb_false_r. Qed.

(** The run of [update] once the article has been fetched and no slug is
    due. *)
Lemma update_run_unchanged (h : Handler) id dto w w1 a :
  h _ (ArticleFindById id) w = (w1, Ok (Some a)) ->
  ArticlesService.title_changed (update_title dto) a = false ->
  run h (ArticlesService.update charMap normalize id dto) w
  = let p := {| upd_body := update_body dto;
                upd_title := update_title dto;
                upd_slug := None |} in
    match h _ (ArticleUpdate a p) w1 with
    | (w2, Ok a') =>
        match h _ (ArticleFindByIdWithRelations (Some (article_id a'))) w2 with
        | (w3, Ok r) =>
            (w3, [Invoked (ArticleFindById id); Invoked (ArticleUpdate a p);
                  Invoked (ArticleFindByIdWithRelations
                             (Some (article_id a')))], Ok r)
        | (w3, Err e) =>
            (w3, [Invoked (ArticleFindById id); Invoked (ArticleUpdate a p);
                  Invoked (ArticleFindByIdWithRelations
                             (Some (article_id a')))], Err e)
        end
    | (w2, Err e) =>
        (w2, [Invoked (ArticleFindById id); Invoked (ArticleUpdate a p)],
         Err e)
    end.
Proof.
  intros Hfetch Hsame.
  unfold ArticlesService.update, ArticlesService.validateAndFetchArticleById.
  cbn [bind call run]. rewrite Hfetch. cbn [bind run].
  unfold ArticlesService.title_changed in Hsame.
  destruct (update_title dto) as [t|]; [rewrite Hsame|]; cbn [bind call run];
    (match goal with
     | |- context [h _ (ArticleUpdate a ?p) w1] =>
         destruct (h _ (ArticleUpdate a p) w1) as [w2 [a'|e]];
         [|reflexivity]
     end);
    cbn [bind call run];
    destruct (h _ (ArticleFindByIdWithRelations (Some (article_id a'))) w2)
      as [w3 [r|e]]; reflexivity.
Qed.

(** The run of [update] once the article has been fetched and a new slug is
    due. *)
Lemma update_run_changed (h : Handler) id dto w w1 a t :
  h _ (ArticleFindById id) w = (w1, Ok (Some a)) ->
  update_title dto = Some t ->
  ArticlesService.title_changed (update_title dto) a = true ->
  run h (ArticlesService.update charMap normalize id dto) w
  = match h _ (GetRandomValues 11) w1 with
    | (w2, Ok rv) =>
        let p := {| upd_body := update_body dto;
                    upd_title := Some t;
                    upd_slug :=
                      Some (ArticlesService.baseSlug charMap normalize t
                            ++ lit "-" ++ Slug.suffix_of 11 rv) |} in
        match h _ (ArticleUpdate a p) w2 with
        | (w3, Ok a') =>
            let '(w4, r) :=
              h _ (ArticleFindByIdWithRelations (Some (article_id a'))) w3 in
            (w4, [Invoked (ArticleFindById id); Invoked (GetRandomValues 11);
                  Invoked (ArticleUpdate a p);
                  Invoked (ArticleFindByIdWithRelations
                             (Some (article_id a')))], r)
        | (w3, Err e) =>
            (w3, [Invoked (ArticleFindById id); Invoked (GetRandomValues 11);
                  Invoked (ArticleUpdate a p)], Err e)
        end
    | (w2, Err e) =>
        (w2, [Invoked (ArticleFindById id); Invoked (GetRandomValues 11)],
         Err e)
    end.
Proof.
  intros Hfetch Ht Hc.
  unfold ArticlesService.update, ArticlesService.validateAndFetchArticleById.
  cbn [bind call run]. rewrite Hfetch. cbn [bind run].
  unfold ArticlesService.title_changed in Hc. rewrite Ht in Hc |- *.
  rewrite Hc. unfold ArticlesService.slugify.
  cbn [bind call run ArticlesService.generateUniqueSuffix].
  destruct (h _ (GetRandomValues 11) w1) as [w2 [rv|e]]; [|reflexivity].
  cbn [bind call run]. cbv zeta.
  match goal with
  | |- ?L = ?R =>
      match L with
      | context [h _ (ArticleUpdate a ?p1) w2] =>
          match R with
          | context [h _ (ArticleUpdate a ?p2) w2] => change p2 with p1
          end
      end
  end.
  match goal with
  | |- context [h _ (ArticleUpdate a ?p) w2] =>
      destruct (h _ (ArticleUpdate a p) w2) as [w3 [a'|e]]; [|reflexivity]
  end.
  cbn [bind call run].
  destruct (h _ (ArticleFindByIdWithRelations (Some (article_id a'))) w3)
    as [w4 [r|e]]; reflexivity.
Qed.

Lemma find_after_replace (id : Id) (a' : Article) (l : list Article) :
  article_id a' = id ->
  find (fun a => (article_id a =? id)%N) l <> None ->
  find (fun a => (article_id a =? id)%N)
       (map (fun r => if (article_id r =? id)%N then a' else r) l)
  = Some a'.
Proof.
  intros Hid. induction l as [|x r IH]; simpl; [congruence|].
  destruct (article_id x =? id)%N eqn:E.
  - intros _. now rewrite Hid, N.eqb_refl.
  - rewrite E. exact IH.
Qed.

Lemma articleFindById_id id w a :
  InMemory.articleFindById id w = Some a -> article_id a = id.
Proof.
  unfold InMemory.articleFindById. intros H. apply find_some in H.
  now apply N.eqb_eq.
Qed.

End UpdateFacts.

(** C6.  [update] fetches the article by id first and signals NotFound,
    without calling the repository's update, when the id does not resolve.
    The payload handed to the repository's update holds a slug, made anew
    from the title, only if a title was supplied that differs from the
    fetched article's title; with an unchanged (or no) title the payload
    has no slug and no random bytes are drawn.  Stored through that
    payload, the article keeps its slug. *)
Theorem update_slug_only_when_title_changes (charMap : N -> option str)
    (normalize : str -> str) (h : Handler) (id : Id)
    (dto : UpdateArticleDto) (w : World) :
  (let x := run h (ArticlesService.update charMap normalize id dto) w in
   match h _ (ArticleFindById id) w with
  | (w1, Ok None) =>
      x = (w1, [Invoked (ArticleFindById id)],
           Err (NotFoundException 404 "slug" "Artilce not found"))
  | (w1, Ok (Some a)) =>
      if ArticlesService.title_changed (update_title dto) a
      then exists t,
             update_title dto = Some t /\ t <> article_title a
             /\ Trace.draws (trace_of x) = [11%nat]
             /\ match h _ (GetRandomValues 11) w1 with
                | (_, Ok rv) =>
                    Trace.updates (trace_of x)
                    = [(a, {| upd_body := update_body dto;
                              upd_title := Some t;
                              upd_slug :=
                                Some (ArticlesService.baseSlug
                                        charMap normalize t
                                      ++ lit "-" ++ Slug.suffix_of 11 rv) |})]
                | (_, Err _) => Trace.updates (trace_of x) = []
                end
      else ArticlesService.title_changed (Some (article_title a)) a = false
           /\ Trace.updates (trace_of x)
              = [(a, {| upd_body := update_body dto;
                        upd_title := update_title dto;
                        upd_slug := None |})]
           /\ Trace.draws (trace_of x) = []
  | (w1, Err e) => x = (w1, [Invoked (ArticleFindById id)], Err e)
  end)
  /\
  let y := run InMemory.handler
             (ArticlesService.update charMap normalize id dto) w in
  match InMemory.articleFindById id w with
  | Some a =>
      if ArticlesService.title_changed (update_title dto) a
      then True
      else exists a',
             InMemory.articleFindById id (world_of y) = Some a'
             /\ article_slug a' = article_slug a
             /\ result_of y
                = Ok (Some (InMemory.populate_article (world_of y) a'))
  | None => result_of y = Err ArticlesService.article_not_found
            /\ world_of y = w
  end.
Proof.
  cbv zeta. split.
  - destruct (h _ (ArticleFindById id) w) as [w1 [[a|]|e]] eqn:Hfetch.
    + destruct (ArticlesService.title_changed (update_title dto) a) eqn:Hc.
      * destruct (title_changed_differs _ _ Hc) as [t [Ht [_ Hd]]].
        exists t. split; [exact Ht|]. split; [exact Hd|].
        rewrite (update_run_changed charMap normalize h id dto w w1 a t
                   Hfetch Ht Hc).
        destruct (h _ (GetRandomValues 11) w1) as [w2 [rv|e]];
          [|split; reflexivity].
        cbv zeta.
        match goal with
        | |- context [h _ (ArticleUpdate a ?p) w2] =>
            destruct (h _ (ArticleUpdate a p) w2) as [w3 [a'|e]];
            [|split; reflexivity]
        end.
        destruct (h _ (ArticleFindByIdWithRelations _) w3) as [w4 [r|e]];
          split; reflexivity.
      * split; [apply title_unchanged|].
        rewrite (update_run_unchanged charMap normalize h id dto w w1 a
                   Hfetch Hc).
        cbv zeta.
        destruct (h _ (ArticleUpdate a _) w1) as [w2 [a'|e]];
          [|split; reflexivity].
        destruct (h _ (ArticleFindByIdWithRelations _) w2) as [w3 [r|e]];
          split; reflexivity.
    + unfold ArticlesService.update,
        ArticlesService.validateAndFetchArticleById.
      cbn [bind call run]. now rewrite Hfetch.
    + unfold ArticlesService.update,
        ArticlesService.validateAndFetchArticleById.
      cbn [bind call run]. now rewrite Hfetch.
  - destruct (InMemory.articleFindById id w) as [a|] eqn:Hfind.
    + destruct (ArticlesService.title_changed (update_title dto) a) eqn:Hc;
        [exact I|].
      assert (Hfetch : InMemory.handler _ (ArticleFindById id) w
                       = (w, Ok (Some a))) by (simpl; now rewrite Hfind).
      rewrite (update_run_unchanged charMap normalize InMemory.handler
                 id dto w w a Hfetch Hc).
      cbv zeta. cbn [InMemory.handler]. unfold InMemory.articleUpdate.
      pose proof (articleFindById_id _ _ _ Hfind) as Hid.
      rewrite Hid, Hfind.
      set (p := {| upd_body := update_body dto;
                   upd_title := update_title dto; upd_slug := None |}).
      set (a' := InMemory.merge a p (now w)).
      assert (Hnew : InMemory.articleFindById id
                       (InMemory.with_articles w
                          (map (fun r => if (article_id r =? id)%N
                                         then a' else r)
                               (articles (db w))))
                     = Some a').
      { unfold InMemory.articleFindById. simpl.
        apply find_after_replace; [exact Hid|].
        unfold InMemory.articleFindById in Hfind. congruence. }
      exists a'. cbn [world_of result_of fst snd].
      change (article_id a') with (article_id a). rewrite Hid.
      split; [exact Hnew|]. split; [reflexivity|].
      unfold InMemory.articleFindByIdWithRelations. now rewrite Hnew.
    + unfold ArticlesService.update,
        ArticlesService.validateAndFetchArticleById.
      cbn [bind call run InMemory.handler]. rewrite Hfind. split; reflexivity.
Qed.

(** Updating the first post of the sample world with its own title: the
    stored slug stays, and no random byte is drawn. *)
Example update_same_title :
  let dto := {| update_title := Some (lit "First post");
                update_body := Some (lit "edited") |} in
  let y := run InMemory.handler
             (ArticlesService.update Sample.no_table Sample.no_normalize
                1%N dto) Sample.world in
  option_map article_slug (InMemory.articleFindById 1%N (world_of y))
  = Some (lit "first-post-uuuuuuuuuuu")
  /\ option_map article_body (InMemory.articleFindById 1%N (world_of y))
     = Some (lit "edited")
  /\ Trace.draws (trace_of y) = [].
Proof. repeat split; reflexivity. Qed.

(** With a new title the slug is made anew. *)
Example update_new_title :
  let dto := {| update_title := Some (lit "Hello, World!");
                update_body := None |} in
  let y := run InMemory.handler
             (ArticlesService.update Sample.no_table Sample.no_normalize
                1%N dto) Sample.world in
  option_map article_slug (InMemory.articleFindById 1%N (world_of y))
  = Some (lit "hello-world-T198340PX75")
  /\ Trace.draws (trace_of y) = [11%nat].
Proof. repeat split; reflexivity. Qed.

(** ** Tag reconciliation *)

Section ReconcileFacts.

Import Radash.

Lemma own_put {V} (o : obj V) k v a :
  own (put o k v) a = if str_eqb k a then Some v else own o a.
Proof.
  induction o as [|[k0 x] r IH]; simpl; [reflexivity|].
  destruct (str_eqb k0 k) eqn:E0; simpl.
  - apply str_eqb_eq in E0. subst k0. now destruct (str_eqb k a).
  - rewrite IH. destruct (str_eqb k a) eqn:E1; [|reflexivity].
    apply str_eqb_eq in E1. subst a. now rewrite E0.
Qed.

Lemma own_Some_key {V} (o : obj V) k v :
  own o k = Some v -> In k (map fst o).
Proof.
  induction o as [|[k0 x] r IH]; simpl; [discriminate|].
  destruct (str_eqb k0 k) eqn:E; [|auto].
  apply str_eqb_eq in E. auto.
Qed.

Lemma own_None_key {V} (o : obj V) k :
  own o k = None -> ~ In k (map fst o).
Proof.
  induction o as [|[k0 x] r IH]; simpl; [tauto|].
  destruct (str_eqb k0 k) eqn:E; [discriminate|].
  apply str_eqb_neq in E. intros H [H1 | H1]; [contradiction | now apply IH].
Qed.

Lemma put_keys {V} (o : obj V) k v x :
  In x (map fst (put o k v)) <-> In x (map fst o) \/ x = k.
Proof.
  induction o as [|[k0 y] r IH]; simpl.
  - split; [intros [<- | []]; auto | intros [[] | ->]; auto].
  - destruct (str_eqb k0 k) eqn:E; simpl.
    + apply str_eqb_eq in E. subst k0. split; [tauto|].
      intros [H | ->]; auto.
    + rewrite IH. tauto.
Qed.

Lemma put_keys_NoDup {V} (o : obj V) k v :
  NoDup (map fst o) -> NoDup (map fst (put o k v)).
Proof.
  induction o as [|[k0 y] r IH]; simpl; intros H.
  - constructor; [intros [] | constructor].
  - inversion H as [|? ? Hk Hr]; subst.
    destruct (str_eqb k0 k) eqn:E; simpl; [now constructor|].
    constructor; [|now apply IH].
    rewrite put_keys. intros [H1 | ->]; [contradiction|].
    apply str_eqb_neq in E. now apply E.
Qed.

Lemma put_same (o : obj str) k :
  Forall (fun kv => fst kv = snd kv) o ->
  Forall (fun kv => fst kv = snd kv) (put o k k).
Proof.
  induction 1 as [|[k0 y] r Hk Hr IH]; simpl.
  - now repeat constructor.
  - destruct (str_eqb k0 k) eqn:E.
    + apply str_eqb_eq in E. subst k0. now constructor.
    + now constructor.
Qed.

Lemma insert_index_values {V} n (v : V) l :
  Permutation (map snd (insert_index V n v l)) (v :: map snd l).
Proof.
  induction l as [|[m x] r IH]; simpl; [reflexivity|].
  destruct (n <=? m)%N; simpl; [reflexivity|].
  rewrite IH. apply perm_swap.
Qed.

(** [Object.values] reorders the values and does no more. *)
Lemma values_Permutation {V} (o : obj V) :
  Permutation (values o) (map snd o).
Proof.
  unfold values. induction o as [|[k v] r IH]; simpl; [reflexivity|].
  destruct (array_index k).
  - rewrite insert_index_values. simpl. now constructor.
  - rewrite <- IH. symmetry. apply Permutation_middle.
Qed.

Lemma inherited_proto k :
  inherited k = false -> str_eqb k (lit "__proto__") = false.
Proof.
  intros H. apply str_eqb_neq. intros ->. discriminate H.
Qed.

(** What the object of [unique] holds after the items [l]: every item that
    is no inherited key, once, as key and as value. *)
Lemma unique_step_keeps l acc item :
  NoDup (map fst acc)
  /\ Forall (fun kv => fst kv = snd kv) acc
  /\ (forall x, In x (map fst acc) <-> In x l /\ inherited x = false) ->
  NoDup (map fst (unique_step acc item))
  /\ Forall (fun kv => fst kv = snd kv) (unique_step acc item)
  /\ (forall x, In x (map fst (unique_step acc item))
                <-> In x (l ++ [item]) /\ inherited x = false).
Proof.
  intros [Hnd [Hkv Hin]]. unfold unique_step, truthy_at.
  destruct (own acc item) as [v|] eqn:Eo.
  - pose proof (own_Some_key _ _ _ Eo) as Hk.
    pose proof (proj2 (proj1 (Hin item) Hk)) as Hi.
    assert (Hsame : forall x, In x (map fst acc)
                              <-> In x (l ++ [item]) /\ inherited x = false).
    { intros x. rewrite Hin, in_app_iff. simpl. split; [tauto|].
      intros [[H | [<- | []]] H2]; [tauto|]. now apply Hin. }
    destruct (truthy v); [tauto|].
    unfold assign. rewrite (inherited_proto _ Hi).
    split; [now apply put_keys_NoDup|]. split; [now apply put_same|].
    intros x. rewrite put_keys, <- Hsame. split; [|tauto].
    intros [H | ->]; tauto.
  - pose proof (own_None_key _ _ Eo) as Hk.
    destruct (inherited item) eqn:Hi.
    + split; [assumption|]. split; [assumption|].
      intros x. rewrite Hin, in_app_iff. simpl. split; [tauto|].
      intros [[H | [<- | []]] H2]; [tauto | congruence].
    + unfold assign. rewrite (inherited_proto _ Hi).
      split; [now apply put_keys_NoDup|]. split; [now apply put_same|].
      intros x. rewrite put_keys, Hin, in_app_iff. simpl. split.
      * intros [H | ->]; tauto.
      * intros [[H | [<- | []]] H2]; tauto.
Qed.

Lemma unique_fold_keeps array : forall l acc,
  NoDup (map fst acc)
  /\ Forall (fun kv => fst kv = snd kv) acc
  /\ (forall x, In x (map fst acc) <-> In x l /\ inherited x = false) ->
  NoDup (map fst (fold_left unique_step array acc))
  /\ Forall (fun kv => fst kv = snd kv) (fold_left unique_step array acc)
  /\ (forall x, In x (map fst (fold_left unique_step array acc))
                <-> In x (l ++ array) /\ inherited x = false).
Proof.
  induction array as [|item r IH]; intros l acc H; simpl.
  - now rewrite app_nil_r.
  - replace (l ++ item :: r) with ((l ++ [item]) ++ r)
      by now rewrite <- app_assoc.
    apply IH. now apply unique_step_keeps.
Qed.

Lemma unique_object l :
  exists acc : obj str,
    unique l = values acc
    /\ map snd acc = map fst acc
    /\ NoDup (map fst acc)
    /\ (forall x, In x (map fst acc) <-> In x l /\ inherited x = false).
Proof.
  exists (fold_left unique_step l []).
  destruct (unique_fold_keeps l [] []) as [Hnd [Hkv Hin]].
  { split; [constructor|]. split; [constructor|]. simpl. tauto. }
  split; [reflexivity|]. split; [|now split].
  clear Hnd Hin. induction Hkv as [|[k v] r Hk Hr IH]; simpl;
    [reflexivity|]. simpl in Hk. now rewrite IH, Hk.
Qed.

(** [unique] keeps exactly the items that are no inherited key. *)
Lemma unique_In l x : In x (unique l) <-> In x l /\ inherited x = false.
Proof.
  destruct (unique_object l) as [acc [E [Hkv [_ Hin]]]].
  rewrite E, <- Hin, <- Hkv. split; intros H.
  - now apply (Permutation_in _ (values_Permutation acc)).
  - now apply (Permutation_in _ (Permutation_sym (values_Permutation acc))).
Qed.

Lemma unique_NoDup l : NoDup (unique l).
Proof.
  destruct (unique_object l) as [acc [E [Hkv [Hnd _]]]].
  rewrite E. rewrite <- Hkv in Hnd.
  exact (Permutation_NoDup (Permutation_sym (values_Permutation acc)) Hnd).
Qed.

Lemma unique_plain l x :
  Forall (fun n => inherited n = false) l ->
  (In x (unique l) <-> In x l).
Proof.
  intros H. rewrite unique_In. rewrite Forall_forall in H. split; [tauto|].
  intros Hx. split; [assumption | now apply H].
Qed.

Lemma unique_empty l :
  unique l = [] -> Forall (fun n => inherited n = true) l.
Proof.
  intros E. apply Forall_forall. intros x Hx.
  destruct (inherited x) eqn:Hi; [reflexivity|].
  exfalso. assert (H : In x (unique l)) by now apply unique_In.
  now rewrite E in H.
Qed.

Lemma bKeys_fold other a : forall acc : obj bool,
  own acc (lit "__proto__") = None ->
  truthy_at (fun b => b)
    (fold_left (fun acc item => assign acc item true) other acc) a
  = truthy_at (fun b => b) acc a || mem a other.
Proof.
  induction other as [|item r IH]; intros acc Hp; simpl.
  - now rewrite orb_false_r.
  - unfold assign at 2. destruct (str_eqb item (lit "__proto__")) eqn:E.
    + rewrite IH by assumption. apply str_eqb_eq in E. subst item.
      destruct (str_eqb a (lit "__proto__")) eqn:Ea; [|reflexivity].
      apply str_eqb_eq in Ea. subst a. unfold truthy_at. now rewrite Hp.
    + rewrite IH by (rewrite own_put, E; exact Hp).
      unfold truthy_at at 1. rewrite own_put.
      destruct (str_eqb item a) eqn:Ea.
      * apply str_eqb_eq in Ea. subst a. rewrite str_eqb_refl.
        now rewrite orb_true_r.
      * replace (str_eqb a item) with false; [reflexivity|].
        symmetry. apply str_eqb_neq. apply str_eqb_neq in Ea. congruence.
Qed.

Lemma bKeys_truthy other a :
  truthy_at (fun b => b) (bKeys other) a = mem a other || inherited a.
Proof.
  unfold bKeys. rewrite bKeys_fold by reflexivity.
  unfold truthy_at at 1. simpl. apply orb_comm.
Qed.

(** [diff] keeps the items of the first array that are not in the second
    and, when the second is not empty, are no inherited key. *)
Lemma diff_In root other x :
  In x (diff root other)
  <-> In x root /\ ~ In x other /\ (other = [] \/ inherited x = false).
Proof.
  unfold diff. destruct other as [|o os].
  - destruct root as [|r rs]; simpl; tauto.
  - assert (E : forall l,
               In x (filter (fun a => negb (truthy_at (fun b => b)
                                              (bKeys (o :: os)) a)) l)
               <-> In x l /\ ~ In x (o :: os)
                   /\ (o :: os = [] \/ inherited x = false)).
    { intros l. rewrite filter_In, bKeys_truthy, negb_true_iff,
        orb_false_iff, mem_not_In. split; [tauto|].
      intros [H1 [H2 [H3 | H3]]]; [discriminate H3 | tauto]. }
    destruct root as [|r rs]; apply E.
Qed.

Lemma diff_NoDup root other : NoDup root -> NoDup (diff root other).
Proof.
  intros H. unfold diff. destruct other as [|o os].
  - now destruct root.
  - destruct root; now apply NoDup_filter.
Qed.

Lemma has_dup_NoDup l : NoDup l -> InMemory.has_dup l = false.
Proof.
  induction 1 as [|x r Hx _ IH]; simpl; [reflexivity|].
  apply mem_not_In in Hx. now rewrite Hx, IH.
Qed.

Lemma new_tags_names first time names :
  map tag_name (InMemory.new_tags first time names) = names.
Proof.
  revert first. induction names as [|n r IH]; intros first; simpl;
    [reflexivity | now rewrite IH].
Qed.

Lemma toCreateTagDtos_names names :
  map dto_name (ArticlesService.toCreateTagDtos names) = names.
Proof.
  unfold ArticlesService.toCreateTagDtos. rewrite map_map. apply map_id.
Qed.

Lemma findByNames_In names w t :
  In t (InMemory.findByNames names w)
  <-> In t (tags (db w)) /\ In (tag_name t) names.
Proof. unfold InMemory.findByNames. now rewrite filter_In, mem_In. Qed.

(** Looking tags up by name keeps the stored names distinct. *)
Lemma found_names_NoDup names w :
  NoDup (map tag_name (tags (db w))) ->
  NoDup (map tag_name (InMemory.findByNames names w)).
Proof.
  unfold InMemory.findByNames.
  induction (tags (db w)) as [|t ts IH]; simpl; intros Hnd; [constructor|].
  inversion Hnd as [|? ? Hfresh Hrest]; subst.
  destruct (mem (tag_name t) names); simpl; [|now apply IH].
  constructor; [|now apply IH].
  rewrite in_map_iff. intros [t0 [E Hin]]. apply Hfresh.
  apply filter_In in Hin. rewrite <- E. apply in_map. tauto.
Qed.

(** The names still to create are not stored yet. *)
Lemma missing_not_stored tl w n :
  In n (diff (unique tl)
          (map tag_name (InMemory.findByNames (unique tl) w))) ->
  ~ In n (map tag_name (tags (db w))).
Proof.
  rewrite diff_In. intros [Hu Hnot] Hin. apply Hnot.
  apply in_map_iff in Hin. destruct Hin as [t [<- Ht]].
  apply in_map. apply findByNames_In. tauto.
Qed.

Lemma createMany_missing tl w :
  let missing := diff (unique tl)
                   (map tag_name (InMemory.findByNames (unique tl) w)) in
  InMemory.createMany (ArticlesService.toCreateTagDtos missing) w
  = (InMemory.bump
       (InMemory.with_tags w
          (tags (db w) ++ InMemory.new_tags (next_id w) (now w) missing))
       (N.of_nat (List.length missing)),
     Ok (InMemory.new_tags (next_id w) (now w) missing)).
Proof.
  intros missing. unfold InMemory.createMany.
  rewrite toCreateTagDtos_names.
  rewrite has_dup_NoDup by (apply diff_NoDup, unique_NoDup).
  replace (existsb _ missing) with false; [reflexivity|].
  symmetry. apply not_true_is_false. intros H.
  apply existsb_exists in H. destruct H as [n [Hn Hm]].
  apply mem_In in Hm. exact (missing_not_stored tl w n Hn Hm).
Qed.

(** The run of the tag block against the in-memory tags service. *)
Lemma createArticle_tags_run tl w :
  let found := InMemory.findByNames (unique tl) w in
  let missing := diff (unique tl) (map tag_name found) in
  let created := InMemory.new_tags (next_id w) (now w) missing in
  run InMemory.handler (ArticlesService.createArticle_tags (Some tl)) w
  = match tl, missing with
    | [], _ => (w, [], Ok (Some []))
    | _ :: _, [] =>
        (w, [Invoked (TagsFindByNames (unique tl))], Ok (Some found))
    | _ :: _, _ :: _ =>
        (InMemory.bump (InMemory.with_tags w (tags (db w) ++ created))
           (N.of_nat (List.length missing)),
         [Invoked (TagsFindByNames (unique tl));
          Invoked (TagsCreateMany (ArticlesService.toCreateTagDtos missing))],
         Ok (Some (found ++ created)))
    end.
Proof.
  intros found missing created. destruct tl as [|n0 r]; [reflexivity|].
  unfold ArticlesService.createArticle_tags.
  cbn [bind call run InMemory.handler].
  fold found. fold missing.
  pose proof (createMany_missing (n0 :: r) w) as Hc. cbv zeta in Hc.
  fold found in Hc. fold missing in Hc. fold created in Hc.
  destruct missing as [|m ms] eqn:Em; [reflexivity|].
  cbn [List.length Nat.ltb Nat.leb bind call run InMemory.handler].
  now rewrite Hc.
Qed.

Lemma collect_app {A} (f : Event -> option A) t1 t2 :
  Trace.collect f (t1 ++ t2) = Trace.collect f t1 ++ Trace.collect f t2.
Proof.
  induction t1 as [|e r IH]; simpl; [reflexivity|].
  destruct (f e); simpl; now rewrite IH.
Qed.

Lemma findByNames_none w : InMemory.findByNames [] w = [].
Proof.
  unfold InMemory.findByNames. induction (tags (db w)) as [|t r IH];
    [reflexivity | exact IH].
Qed.

Lemma resolved_names tl w :
  NoDup (map tag_name (tags (db w))) ->
  let found := InMemory.findByNames (unique tl) w in
  let missing := diff (unique tl) (map tag_name found) in
  Permutation (map tag_name found ++ missing) (unique tl).
Proof.
  intros Hstore found missing.
  apply NoDup_Permutation; [|apply unique_NoDup|].
  - apply NoDup_app.
    + apply found_names_NoDup, Hstore.
    + apply diff_NoDup, unique_NoDup.
    + intros n Hf Hm. apply diff_In in Hm. tauto.
  - intros n. rewrite in_app_iff. unfold missing. rewrite diff_In. split.
    + intros [Hf|[Hu _]]; [|assumption].
      apply in_map_iff in Hf. destruct Hf as [t [<- Ht]].
      apply findByNames_In in Ht. tauto.
    + intros Hu.
      pose proof (proj2 (proj1 (unique_In tl n) Hu)) as Hi.
      destruct (in_dec (list_eq_dec N.eq_dec) n (map tag_name found));
        tauto.
Qed.

Lemma missing_iff tl w n :
  In n (diff (unique tl)
          (map tag_name (InMemory.findByNames (unique tl) w)))
  <-> In n tl /\ inherited n = false
      /\ ~ In n (map tag_name (tags (db w))).
Proof.
  split.
  - intros H. pose proof (missing_not_stored tl w n H) as Hs.
    apply diff_In in H. destruct H as [H _]. apply unique_In in H. tauto.
  - intros [Htl [Hi Hnot]]. apply diff_In.
    split; [now apply unique_In|]. split; [|now right].
    intros Hin. apply Hnot. apply in_map_iff in Hin.
    destruct Hin as [t [<- Ht]]. apply in_map.
    apply findByNames_In in Ht. tauto.
Qed.

Lemma filter_nothing {A} (p : A -> bool) (l : list A) :
  (forall y, In y l -> p y = false) -> filter p l = [].
Proof.
  induction l as [|x r IH]; simpl; intros H; [reflexivity|].
  rewrite (H x (or_introl eq_refl)). apply IH. intros y Hy. apply H.
  now right.
Qed.

Lemma filter_single {A B} (f : A -> B) (p : A -> bool) (l : list A) (t : A) :
  NoDup (map f l) -> In t l ->
  (forall y, In y l -> (p y = true <-> f y = f t)) ->
  filter p l = [t].
Proof.
  induction l as [|x r IH]; simpl; [contradiction|].
  intros Hnd Hin Hp. inversion Hnd as [|? ? Hx Hr]; subst.
  destruct Hin as [E | Hin].
  - subst x. rewrite (proj2 (Hp t (or_introl eq_refl)) eq_refl). f_equal.
    apply filter_nothing. intros y Hy.
    destruct (p y) eqn:Py; [|reflexivity].
    exfalso. apply Hx. apply in_map_iff. exists y. split; [|assumption].
    apply Hp; [now right | exact Py].
  - destruct (p x) eqn:Px.
    + exfalso. apply Hx. apply in_map_iff. exists t. split; [|assumption].
      symmetry. apply (Hp x (or_introl eq_refl)). exact Px.
    + apply IH; [assumption | assumption |].
      intros z Hz. apply Hp. now right.
Qed.

Lemma NoDup_single {A} (l : list A) (n : A) :
  NoDup l -> (forall x, In x l <-> x = n) -> l = [n].
Proof.
  intros Hnd H. destruct l as [|a r].
  - exfalso. now apply (proj2 (H n)).
  - assert (a = n) by (apply H; now left). subst a.
    destruct r as [|b r]; [reflexivity|]. exfalso.
    inversion Hnd as [|? ? Hn _]; subst. apply Hn.
    assert (b = n) by (apply H; right; now left). subst b. now left.
Qed.

Lemma flow_world_tags p n w :
  tags (db (fst (InMemory.articleCreate p
                   (fst (InMemory.getRandomValues n w)))))
  = tags (db w).
Proof. reflexivity. Qed.

Lemma flow_world_articles p n w :
  map article_tagList
      (articles (db (fst (InMemory.articleCreate p
                            (fst (InMemory.getRandomValues n w))))))
  = map article_tagList (articles (db w)) ++ [payload_tagList p].
Proof.
  unfold InMemory.articleCreate, InMemory.getRandomValues.
  cbn [fst db articles InMemory.bump InMemory.with_articles set_db].
  rewrite map_app. reflexivity.
Qed.

End ReconcileFacts.

Section CreateFacts.

Import Radash.

Variable charMap : N -> option str.
Variable normalize : str -> str.

Lemma slugify_run title w :
  run InMemory.handler (ArticlesService.slugify charMap normalize title) w
  = (fst (InMemory.getRandomValues 11 w), [Invoked (GetRandomValues 11)],
     Ok (ArticlesService.baseSlug charMap normalize title
         ++ lit "-"
         ++ Slug.suffix_of 11 (snd (InMemory.getRandomValues 11 w)))).
Proof. reflexivity. Qed.

Lemma run_validate (h : Handler) id w :
  run h (ArticlesService.validateAndFetchArticleWithRelationsById id) w
  = match h _ (ArticleFindByIdWithRelations id) w with
    | (w1, Ok (Some a)) =>
        (w1, [Invoked (ArticleFindByIdWithRelations id)], Ok a)
    | (w1, Ok None) =>
        (w1, [Invoked (ArticleFindByIdWithRelations id)],
         Err ArticlesService.article_not_found)
    | (w1, Err e) => (w1, [Invoked (ArticleFindByIdWithRelations id)], Err e)
    end.
Proof.
  unfold ArticlesService.validateAndFetchArticleWithRelationsById.
  cbn [bind call run].
  destruct (h _ (ArticleFindByIdWithRelations id) w) as [w1 [[a|]|e]];
    reflexivity.
Qed.

(** The run of the creation flow against the in-memory collaborators, once
    the tag block has run. *)
Lemma create_flow_run dto user w :
  run InMemory.handler
    (ArticlesService.createArticleWithTransaction charMap normalize dto user) w
  = match run InMemory.handler
            (ArticlesService.createArticle_tags (create_tagList dto)) w with
    | (w1, t1, Ok tgs) =>
        let rv := snd (InMemory.getRandomValues 11 w1) in
        let p := {| payload_title := create_title dto;
                    payload_body := create_body dto;
                    payload_author_id := jwt_id user;
                    payload_tagList := tgs;
                    payload_slug :=
                      ArticlesService.baseSlug charMap normalize
                        (create_title dto)
                      ++ lit "-" ++ Slug.suffix_of 11 rv |} in
        let w2 := fst (InMemory.articleCreate p
                         (fst (InMemory.getRandomValues 11 w1))) in
        (w2,
         t1 ++ [Invoked (GetRandomValues 11); Invoked (ArticleCreate p);
                Invoked (ArticleFindByIdWithRelations (Some (next_id w1)))],
         match InMemory.articleFindByIdWithRelations (Some (next_id w1)) w2
         with
         | Some a => Ok a
         | None => Err ArticlesService.article_not_found
         end)
    | (w1, t1, Err e) => (w1, t1, Err e)
    end.
Proof.
  unfold ArticlesService.createArticleWithTransaction. rewrite run_bind.
  destruct (run InMemory.handler
              (ArticlesService.createArticle_tags (create_tagList dto)) w)
    as [[w1 t1] [tgs|e]]; [|reflexivity].
  rewrite run_bind, slugify_run. cbv beta iota zeta.
  rewrite run_bind, run_call. cbn [InMemory.handler].
  unfold InMemory.articleCreate at 1. cbv beta iota zeta.
  rewrite run_validate. cbn [InMemory.handler option_map article_id].
  match goal with
  | |- context [InMemory.articleFindByIdWithRelations ?i ?w'] =>
      set (F := InMemory.articleFindByIdWithRelations i w')
  end.
  match goal with
  | |- _ = (_, _, match ?F' with Some _ => _ | None => _ end) =>
      change F' with F
  end.
  destruct F; reflexivity.
Qed.

End CreateFacts.

(** C2.  Reconciliation loses a requested tag name that is a property
    every plain object inherits.  For the request constructor, constructor,
    rust against the sample world, which has no tag of either name, the
    deduplicated list is rust alone: the tags service is asked for rust
    only, rust is the one tag created and the one tag stored with the
    article, and no tag stands for the requested name constructor. *)
Theorem reconcile_drops_inherited_name :
  let x := run InMemory.handler
             (ArticlesService.createArticleWithTransaction
                Sample.no_table Sample.no_normalize Fixture.inherited_twice
                Sample.as_alice)
             Sample.world in
  create_tagList Fixture.inherited_twice
  = Some [lit "constructor"; lit "constructor"; lit "rust"]
  /\ map tag_name (tags (db Sample.world)) = [lit "go"]
  /\ Radash.unique [lit "constructor"; lit "constructor"; lit "rust"]
     = [lit "rust"]
  /\ Trace.lookups (trace_of x) = [[lit "rust"]]
  /\ map (map dto_name) (Trace.creations (trace_of x)) = [[lit "rust"]]
  /\ map tag_name (tags (db (world_of x))) = [lit "go"; lit "rust"]
  /\ map (option_map (map tag_name))
         (map payload_tagList (Trace.persisted (trace_of x)))
     = [Some [lit "rust"]].
Proof. repeat split; reflexivity. Qed.

(** C3.  No tag is created for a name without a record when that name is
    a property every plain object inherits.  For the request go,
    constructor against the sample world, which holds go and no tag
    constructor, the tags service's createMany is not called: no tag is
    created for the missing name and the article is stored with the tag go
    alone. *)
Theorem new_inherited_name_not_created :
  let x := run InMemory.handler
             (ArticlesService.createArticleWithTransaction
                Sample.no_table Sample.no_normalize
                Fixture.stored_and_inherited Sample.as_alice)
             Sample.world in
  create_tagList Fixture.stored_and_inherited
  = Some [lit "go"; lit "constructor"]
  /\ map tag_name (tags (db Sample.world)) = [lit "go"]
  /\ Trace.lookups (trace_of x) = [[lit "go"]]
  /\ Trace.creations (trace_of x) = []
  /\ tags (db (world_of x)) = tags (db Sample.world)
  /\ map payload_tagList (Trace.persisted (trace_of x))
     = [Some [Sample.tag_go]].
Proof. repeat split; reflexivity. Qed.

(** X16.  For a request none of whose tag names is a property every plain
    object inherits, and against a tag table that holds every name once,
    the creation flow looks the tags up once, by a duplicate-free list of
    the requested names; it creates one tag for each requested name that
    has no record, and no other; and the tag list stored with the article
    is the found tags followed by the created ones, which holds exactly one
    tag for every distinct requested name. *)
Theorem tags_reconciled_plain_names (charMap : N -> option str)
    (normalize : str -> str) (dto : CreateArticleDto) (user : JwtPayloadType)
    (tl : list str) (w : World) :
  create_tagList dto = Some tl ->
  Forall (fun n => Radash.inherited n = false) tl ->
  NoDup (map tag_name (tags (db w))) ->
  let x := run InMemory.handler
             (ArticlesService.createArticleWithTransaction
                charMap normalize dto user) w in
  let found := InMemory.findByNames (Radash.unique tl) w in
  exists created : list Tag,
    NoDup (Radash.unique tl)
    /\ (forall n, In n (Radash.unique tl) <-> In n tl)
    /\ Trace.lookups (trace_of x)
       = match tl with [] => [] | _ :: _ => [Radash.unique tl] end
    /\ map dto_name (List.concat (Trace.creations (trace_of x)))
       = map tag_name created
    /\ NoDup (map tag_name created)
    /\ (forall n, In n (map tag_name created)
                  <-> In n tl /\ ~ In n (map tag_name (tags (db w))))
    /\ tags (db (world_of x)) = tags (db w) ++ created
    /\ (forall t, In t found <-> In t (tags (db w)) /\ In (tag_name t) tl)
    /\ map payload_tagList (Trace.persisted (trace_of x))
       = [Some (found ++ created)]
    /\ map article_tagList (articles (db (world_of x)))
       = map article_tagList (articles (db w)) ++ [Some (found ++ created)]
    /\ Permutation (map tag_name (found ++ created)) (Radash.unique tl).
Proof.
  intros Htl Hplain Hstore. cbv zeta.
  rewrite create_flow_run, Htl.
  pose proof (createArticle_tags_run tl w) as Hrun. cbv zeta in Hrun.
  rewrite Hrun. clear Hrun.
  pose proof (resolved_names tl w Hstore) as Hperm. cbv zeta in Hperm.
  assert (Hmiss : forall n,
             In n (Radash.diff (Radash.unique tl)
                     (map tag_name
                        (InMemory.findByNames (Radash.unique tl) w)))
             <-> In n tl /\ ~ In n (map tag_name (tags (db w)))).
  { intros n. rewrite missing_iff. rewrite Forall_forall in Hplain.
    split; [tauto|]. intros [H1 H2]. auto. }
  assert (Hnd : NoDup (Radash.diff (Radash.unique tl)
                         (map tag_name
                            (InMemory.findByNames (Radash.unique tl) w))))
    by apply diff_NoDup, unique_NoDup.
  assert (Hfound : forall t,
             In t (InMemory.findByNames (Radash.unique tl) w)
             <-> In t (tags (db w)) /\ In (tag_name t) tl).
  { intros t. rewrite findByNames_In, (unique_plain tl _ Hplain). tauto. }
  pose proof (fun n => unique_plain tl n Hplain) as Hu.
  pose proof (unique_NoDup tl) as Hun.
  destruct tl as [|n0 r].
  - change (Radash.unique []) with (@nil str) in *.
    rewrite findByNames_none in *.
    exists []. cbv beta iota zeta. unfold world_of, trace_of.
    cbn [fst snd]. rewrite flow_world_tags, flow_world_articles.
    cbn [app Trace.lookups Trace.creations Trace.persisted Trace.collect
         Trace.lookup_of Trace.creation_of Trace.persisted_of List.concat
         map payload_tagList].
    rewrite !app_nil_r.
    repeat match goal with |- _ /\ _ => split end;
      auto; try exact Hfound; try constructor;
      try (intros n; simpl; tauto).
  - set (found := InMemory.findByNames (Radash.unique (n0 :: r)) w) in *.
    set (missing := Radash.diff (Radash.unique (n0 :: r))
                      (map tag_name found)) in *.
    exists (InMemory.new_tags (next_id w) (now w) missing).
    rewrite map_app, !new_tags_names.
    destruct missing as [|m ms] eqn:Em.
    + cbv beta iota zeta. unfold world_of, trace_of. cbn [fst snd].
      rewrite flow_world_tags, flow_world_articles.
      cbn [app Trace.lookups Trace.creations Trace.persisted Trace.collect
           Trace.lookup_of Trace.creation_of Trace.persisted_of List.concat
           map payload_tagList InMemory.new_tags].
      rewrite !app_nil_r.
      repeat match goal with |- _ /\ _ => split end;
        auto; try exact Hmiss; try exact Hfound.
      now rewrite app_nil_r in Hperm.
    + cbv beta iota zeta. unfold world_of, trace_of. cbn [fst snd].
      rewrite flow_world_tags, flow_world_articles.
      cbn [app Trace.lookups Trace.creations Trace.persisted Trace.collect
           Trace.lookup_of Trace.creation_of Trace.persisted_of List.concat
           payload_tagList].
      rewrite app_nil_r, toCreateTagDtos_names.
      repeat match goal with |- _ /\ _ => split end;
        auto; try exact Hmiss; try exact Hfound.
Qed.

(** The request go, rust, go against the sample world, which holds the tag
    go: the lookup is by go, rust, and rust alone is created. *)
Lemma tags_reconciled_plain_names_witness :
  create_tagList Sample.hello = Some [lit "go"; lit "rust"; lit "go"]
  /\ Forall (fun n => Radash.inherited n = false)
            [lit "go"; lit "rust"; lit "go"]
  /\ NoDup (map tag_name (tags (db Sample.world)))
  /\ exists created : list Tag,
       Trace.lookups
         (trace_of (run InMemory.handler
                      (ArticlesService.createArticleWithTransaction
                         Sample.no_table Sample.no_normalize Sample.hello
                         Sample.as_alice)
                      Sample.world))
       = [Radash.unique [lit "go"; lit "rust"; lit "go"]]
       /\ NoDup (map tag_name created)
       /\ tags (db (world_of
                      (run InMemory.handler
                         (ArticlesService.createArticleWithTransaction
                            Sample.no_table Sample.no_normalize Sample.hello
                            Sample.as_alice)
                         Sample.world)))
          = tags (db Sample.world) ++ created.
Proof.
  assert (H1 : create_tagList Sample.hello
               = Some [lit "go"; lit "rust"; lit "go"]) by reflexivity.
  assert (H0 : Forall (fun n => Radash.inherited n = false)
                 [lit "go"; lit "rust"; lit "go"])
    by (repeat constructor).
  assert (H2 : NoDup (map tag_name (tags (db Sample.world)))).
  { simpl. constructor; [intros [] | constructor]. }
  split; [exact H1|]. split; [exact H0|]. split; [exact H2|].
  destruct (tags_reconciled_plain_names Sample.no_table Sample.no_normalize
              Sample.hello Sample.as_alice _ Sample.world H1 H0 H2)
    as [created [_ [_ [Hl [_ [Hn [_ [Ht _]]]]]]]].
  exists created. split; [exact Hl|]. split; [exact Hn | exact Ht].
Defined.

Example tags_reconciled_sample :
  let x := run InMemory.handler
             (ArticlesService.createArticleWithTransaction
                Sample.no_table Sample.no_normalize Sample.hello
                Sample.as_alice)
             Sample.world in
  Radash.unique [lit "go"; lit "rust"; lit "go"] = [lit "go"; lit "rust"]
  /\ map (map dto_name) (Trace.creations (trace_of x)) = [[lit "rust"]]
  /\ map tag_name (tags (db (world_of x))) = [lit "go"; lit "rust"]
  /\ map (option_map (map tag_name))
         (map payload_tagList (Trace.persisted (trace_of x)))
     = [Some [lit "go"; lit "rust"]].
Proof. repeat split; reflexivity. Qed.

(** Names that are array indices come first, by their number; a repeated
    empty name is kept once. *)
Example unique_orders_indices :
  Radash.unique [lit "b"; lit "10"; lit "2"; lit "x"; lit "b"; lit "01";
                 []; lit "2"; []]
  = [lit "2"; lit "10"; lit "b"; lit "x"; lit "01"; []].
Proof. reflexivity. Qed.

(** X17.  A request that names one stored tag and one name without a
    record, neither of them a property every plain object inherits, makes
    one creation call, for the missing name alone; the stored tag is taken
    as it is, and the table gains the one new tag. *)
Theorem existing_and_new_plain_tag (charMap : N -> option str)
    (normalize : str -> str) (dto : CreateArticleDto) (user : JwtPayloadType)
    (tl : list str) (w : World) (t : Tag) (n : str) :
  create_tagList dto = Some tl ->
  NoDup (map tag_name (tags (db w))) ->
  In t (tags (db w)) ->
  ~ In n (map tag_name (tags (db w))) ->
  Radash.inherited (tag_name t) = false ->
  Radash.inherited n = false ->
  (forall x, In x tl <-> x = tag_name t \/ x = n) ->
  let x := run InMemory.handler
             (ArticlesService.createArticleWithTransaction
                charMap normalize dto user) w in
  exists t' : Tag,
    tag_name t' = n
    /\ Trace.creations (trace_of x) = [[ {| dto_name := n |} ]]
    /\ tags (db (world_of x)) = tags (db w) ++ [t']
    /\ map payload_tagList (Trace.persisted (trace_of x)) = [Some [t; t']]
    /\ map article_tagList (articles (db (world_of x)))
       = map article_tagList (articles (db w)) ++ [Some [t; t']].
Proof.
  intros Htl Hstore Ht Hn Hit Hin Hall. cbv zeta.
  assert (Hne : n <> tag_name t).
  { intros ->. apply Hn. now apply in_map. }
  assert (Hu : forall y, In y (Radash.unique tl)
                         <-> y = tag_name t \/ y = n).
  { intros y. rewrite unique_In, Hall. split; [tauto|].
    intros [-> | ->]; auto. }
  assert (Hfound : InMemory.findByNames (Radash.unique tl) w = [t]).
  { unfold InMemory.findByNames.
    apply (filter_single tag_name); [assumption | assumption |].
    intros y Hy. rewrite mem_In, Hu. split.
    - intros [E | E]; [assumption|]. exfalso. apply Hn. rewrite <- E.
      now apply in_map.
    - intros E. now left. }
  assert (Hmissing : Radash.diff (Radash.unique tl) [tag_name t] = [n]).
  { apply NoDup_single; [apply diff_NoDup, unique_NoDup|].
    intros y. rewrite diff_In, Hu. simpl. split.
    - intros [[E | E] [Hnot _]]; [|assumption]. exfalso. apply Hnot.
      now left.
    - intros ->. split; [now right|]. split; [|now right].
      intros [E | []]. now apply Hne. }
  rewrite create_flow_run, Htl.
  pose proof (createArticle_tags_run tl w) as Hrun. cbv zeta in Hrun.
  rewrite Hrun. clear Hrun. rewrite Hfound.
  cbn [map]. rewrite Hmissing.
  destruct tl as [|n0 r]; [exfalso; apply (proj2 (Hall n)); now right|].
  cbv beta iota zeta. unfold world_of, trace_of. cbn [fst snd].
  rewrite flow_world_tags, flow_world_articles.
  cbn [app Trace.lookups Trace.creations Trace.persisted Trace.collect
       Trace.lookup_of Trace.creation_of Trace.persisted_of
       payload_tagList InMemory.new_tags ArticlesService.toCreateTagDtos map].
  exists {| tag_id := InMemory.id_text (next_id w); tag_name := n;
            tag_created_at := now w; tag_updated_at := now w |}.
  repeat split; reflexivity.
Qed.

(** The sample world holds go and not rust. *)
Lemma existing_and_new_plain_tag_witness :
  create_tagList Sample.hello = Some [lit "go"; lit "rust"; lit "go"]
  /\ NoDup (map tag_name (tags (db Sample.world)))
  /\ In Sample.tag_go (tags (db Sample.world))
  /\ ~ In (lit "rust") (map tag_name (tags (db Sample.world)))
  /\ Radash.inherited (tag_name Sample.tag_go) = false
  /\ Radash.inherited (lit "rust") = false
  /\ (forall x, In x [lit "go"; lit "rust"; lit "go"]
                <-> x = tag_name Sample.tag_go \/ x = lit "rust")
  /\ exists t' : Tag,
       tag_name t' = lit "rust"
       /\ tags (db (world_of
                      (run InMemory.handler
                         (ArticlesService.createArticleWithTransaction
                            Sample.no_table Sample.no_normalize Sample.hello
                            Sample.as_alice)
                         Sample.world)))
          = [Sample.tag_go; t'].
Proof.
  assert (H1 : create_tagList Sample.hello
               = Some [lit "go"; lit "rust"; lit "go"]) by reflexivity.
  assert (H2 : NoDup (map tag_name (tags (db Sample.world)))).
  { simpl. constructor; [intros [] | constructor]. }
  assert (H3 : In Sample.tag_go (tags (db Sample.world))) by (now left).
  assert (H4 : ~ In (lit "rust") (map tag_name (tags (db Sample.world)))).
  { simpl. intros [E | []]. discriminate E. }
  assert (H5 : forall x, In x [lit "go"; lit "rust"; lit "go"]
                         <-> x = tag_name Sample.tag_go \/ x = lit "rust").
  { intros x. simpl. split.
    - intros [E | [E | [E | []]]]; auto.
    - intros [E | E]; auto. }
  assert (H6 : Radash.inherited (tag_name Sample.tag_go) = false)
    by reflexivity.
  assert (H7 : Radash.inherited (lit "rust") = false) by reflexivity.
  split; [exact H1|]. split; [exact H2|]. split; [exact H3|].
  split; [exact H4|]. split; [exact H6|]. split; [exact H7|].
  split; [exact H5|].
  destruct (existing_and_new_plain_tag Sample.no_table Sample.no_normalize
              Sample.hello Sample.as_alice _ Sample.world Sample.tag_go
              (lit "rust") H1 H2 H3 H4 H6 H7 H5)
    as [t' [Hname [_ [Htags _]]]].
  exists t'. split; [exact Hname | exact Htags].
Defined.

(** * Further properties of the slug code *)

Section AlphabetFacts.

Import Slug.

Lemma charset_NoDup : NoDup charset.
Proof.
  unfold charset, lit. cbn [list_ascii_of_string map N_of_ascii].
  repeat (constructor;
          [ cbn [In]; intros H;
            repeat (destruct H as [H | H]; [discriminate H|]); exact H
          | ]).
  constructor.
Qed.

Lemma symbol_same b1 b2 :
  symbol b1 = symbol b2 <-> Z.land b1 63 = Z.land b2 63.
Proof.
  split; [|unfold symbol; now intros ->].
  unfold symbol. intros H.
  pose proof (land_63_range b1) as R1. pose proof (land_63_range b2) as R2.
  assert (E : Z.to_nat (Z.land b1 63) = Z.to_nat (Z.land b2 63)).
  { apply (proj1 (NoDup_nth charset 0%N) charset_NoDup);
      [rewrite charset_length; lia | rewrite charset_length; lia | exact H]. }
  lia.
Qed.

End AlphabetFacts.

(** X1.  For a requested length that is a natural number [n],
    [generateUniqueSuffix(n)] asks for [n] random bytes in one call and,
    once they are drawn, returns [n] characters, all of the alphabet,
    whatever the bytes; for length 0 it returns the empty string.  Lengths
    that are negative or not whole numbers are not covered. *)
Theorem generateUniqueSuffix_any_length (n : nat) :
  ArticlesService.generateUniqueSuffix (Some n)
  = Do (GetRandomValues n) (fun rv => Ret (Slug.suffix_of n rv))
  /\ forall rv : list Z,
       List.length (Slug.suffix_of n rv) = n
       /\ Forall (fun c => In c Slug.charset) (Slug.suffix_of n rv)
       /\ Slug.suffix_of 0 rv = [].
Proof.
  split; [reflexivity|]. intros rv.
  split; [apply suffix_of_length|].
  split; [apply suffix_of_in_charset | reflexivity].
Qed.

(** X2.  The 64 symbols of the alphabet are pairwise distinct, so two draws
    give the same suffix exactly when their bytes agree, position by
    position, in the six low bits. *)
Theorem suffix_same_iff_low_bits (n : nat) (rv1 rv2 : list Z) :
  NoDup Slug.charset
  /\ (Slug.suffix_of n rv1 = Slug.suffix_of n rv2
      <-> map (fun j => Z.land (nth j rv1 0) 63) (seq 0 n)
          = map (fun j => Z.land (nth j rv2 0) 63) (seq 0 n)).
Proof.
  split; [apply charset_NoDup|].
  rewrite !suffix_of_map. split; intros H; apply map_ext_in_iff;
    intros j Hj; apply symbol_same;
    exact (proj1 map_ext_in_iff H j Hj).
Qed.

(** X3.  The mask is unbiased: every symbol of the alphabet is the image of
    exactly 4 of the 256 byte values. *)
Theorem mask_unbiased :
  Forall (fun c => List.length (Shape.bytes_of_symbol c) = 4%nat)
         Slug.charset.
Proof.
  apply Forall_forall. intros c Hc.
  assert (H : forallb (fun c => (List.length (Shape.bytes_of_symbol c)
                                 =? 4)%nat) Slug.charset = true)
    by (vm_compute; reflexivity).
  rewrite forallb_forall in H. apply Nat.eqb_eq. now apply H.
Qed.

Section TidyFacts.

Import Slug Shape.

Lemma kept_not_space_not_dash c :
  kept c -> is_space c = false ->
  (c =? dash)%N = false /\ is_upper c || is_lower c || is_digit c = true.
Proof.
  unfold kept. intros K Sp. rewrite Sp, orb_false_r in K. split; [|exact K].
  apply N.eqb_neq. intros ->. discriminate K.
Qed.

Lemma no_double_dash_cons a l :
  no_double_dash (a :: l)
  = negb ((a =? dash)%N && starts_with_dash l) && no_double_dash l.
Proof.
  destruct l as [|b r]; simpl; [|reflexivity]. now rewrite andb_false_r.
Qed.

Lemma trimStart_head s :
  match trimStart s with
  | [] => True
  | c :: _ => is_space c = false
  end.
Proof.
  induction s as [|c r IH]; simpl; [exact I|].
  destruct (is_space c) eqn:Sp; [exact IH | exact Sp].
Qed.

Lemma trimStart_snoc l c :
  is_space c = false -> trimStart (l ++ [c]) = trimStart l ++ [c].
Proof.
  intros Sp. induction l as [|x r IH]; simpl; [now rewrite Sp|].
  destruct (is_space x); [exact IH | reflexivity].
Qed.

(** A trimmed string is empty, or begins and ends outside white space. *)
Lemma trim_ends s :
  trim s = []
  \/ exists c m d,
       is_space c = false /\ is_space d = false
       /\ (trim s = [c] \/ trim s = c :: m ++ [d]).
Proof.
  unfold trim, trimEnd.
  pose proof (trimStart_head s) as H1.
  destruct (trimStart s) as [|c y]; [now left|]. right.
  cbn [rev]. rewrite (trimStart_snoc _ _ H1), rev_app_distr. cbn [rev app].
  pose proof (trimStart_head (rev y)) as H2.
  destruct (trimStart (rev y)) as [|d z].
  - exists c, [], c. auto.
  - exists c, (rev z), d. cbn [rev].
    split; [exact H1|]. split; [exact H2|]. right. reflexivity.
Qed.

Lemma replace_spaces_shape s : forall inrun,
  Forall kept s ->
  no_double_dash (SlugifyLib.replace_spaces inrun s) = true
  /\ starts_with_dash (SlugifyLib.replace_spaces inrun s)
     = negb inrun && match s with c :: _ => is_space c | [] => false end.
Proof.
  induction s as [|c r IH]; intros inrun K; simpl.
  - now rewrite andb_false_r.
  - inversion K as [|? ? Kc Kr]; subst.
    destruct (is_space c) eqn:Sp.
    + destruct inrun.
      * destruct (IH true Kr) as [N1 S1]. now rewrite N1, S1.
      * destruct (IH true Kr) as [N1 S1]. cbn [SlugifyLib.replacement lit
          list_ascii_of_string map N_of_ascii app].
        change (N_of_ascii "-") with dash.
        rewrite no_double_dash_cons, N1, S1. simpl. now split.
    + destruct (kept_not_space_not_dash c Kc Sp) as [Nd _].
      destruct (IH false Kr) as [N1 S1].
      rewrite no_double_dash_cons, N1, Nd. simpl.
      now rewrite Nd, andb_false_r.
Qed.

Lemma replace_spaces_snoc s d : forall inrun,
  is_space d = false ->
  SlugifyLib.replace_spaces inrun (s ++ [d])
  = SlugifyLib.replace_spaces inrun s ++ [d].
Proof.
  intros inrun Sp. revert inrun.
  induction s as [|c r IH]; intros inrun; simpl; [now rewrite Sp|].
  destruct (is_space c).
  - destruct inrun; rewrite IH; reflexivity.
  - now rewrite IH.
Qed.

Lemma lower_unit_dash c : (lower_unit c =? dash)%N = (c =? dash)%N.
Proof.
  unfold lower_unit, is_upper, dash.
  destruct ((65 <=? c) && (c <=? 90))%N eqn:U; [|reflexivity].
  apply andb_true_iff in U. destruct U as [U1 U2].
  apply N.leb_le in U1, U2.
  transitivity false; [|symmetry]; apply N.eqb_neq; lia.
Qed.

Lemma tidy_lower s :
  starts_with_dash (toLowerCase s) = starts_with_dash s
  /\ no_double_dash (toLowerCase s) = no_double_dash s.
Proof.
  unfold toLowerCase. split.
  - destruct s; simpl; [reflexivity | apply lower_unit_dash].
  - induction s as [|a r IH]; [reflexivity|].
    cbn [map]. rewrite !no_double_dash_cons, IH, lower_unit_dash.
    destruct r; simpl; [reflexivity | now rewrite lower_unit_dash].
Qed.

Lemma ends_lower s :
  ends_with_dash (toLowerCase s) = ends_with_dash s.
Proof.
  unfold ends_with_dash, toLowerCase. rewrite <- map_rev.
  apply (proj1 (tidy_lower (rev s))).
Qed.

Lemma replace_trimmed_tidy s :
  Forall kept s ->
  tidy (SlugifyLib.replace_spaces false (trim s)) = true.
Proof.
  intros K. pose proof (trim_Forall kept s K) as Kt.
  destruct (replace_spaces_shape (trim s) false Kt) as [N1 S1].
  unfold tidy. rewrite N1, S1, andb_true_r.
  destruct (trim_ends s) as [E | [c [m [d [Sc [Sd [E | E]]]]]]];
    rewrite E in *; simpl.
  - reflexivity.
  - rewrite Sc. simpl. unfold ends_with_dash. simpl.
    inversion Kt as [|? ? Kc _]; subst.
    now destruct (kept_not_space_not_dash c Kc Sc) as [-> _].
  - rewrite Sc. simpl.
    change (c :: SlugifyLib.replace_spaces false (m ++ [d]))
      with ([c] ++ SlugifyLib.replace_spaces false (m ++ [d])).
    rewrite replace_spaces_snoc by exact Sd.
    unfold ends_with_dash. rewrite app_assoc, rev_app_distr. simpl.
    assert (Kd : kept d).
    { rewrite Forall_forall in Kt. apply Kt. right. apply in_or_app.
      right. now left. }
    now destruct (kept_not_space_not_dash d Kd Sd) as [-> _].
Qed.

End TidyFacts.

Lemma baseSlug_shape (charMap : N -> option str) (normalize : str -> str)
    (title : str) :
  Shape.tidy (ArticlesService.baseSlug charMap normalize title) = true.
Proof.
  unfold ArticlesService.baseSlug, SlugifyLib.slugify. simpl.
  pose proof (replace_trimmed_tidy _
                (strict_filter_kept
                   (flat_map (SlugifyLib.appendChar charMap Slug.slug_options)
                             (normalize title)))) as T.
  unfold Shape.tidy in *. rewrite ends_lower.
  destruct (tidy_lower
    (SlugifyLib.replace_spaces false
       (trim (SlugifyLib.strict_filter
                (flat_map (SlugifyLib.appendChar charMap Slug.slug_options)
                          (normalize title)))))) as [-> ->].
  exact T.
Qed.

(** X4.  Whatever the title, the transliteration table and the
    normalisation, the base slug does not begin with a dash, does not end
    with one, and has no two dashes in a row. *)
Theorem baseSlug_tidy (charMap : N -> option str) (normalize : str -> str)
    (title : str) :
  Shape.starts_with_dash (ArticlesService.baseSlug charMap normalize title)
  = false
  /\ Shape.ends_with_dash (ArticlesService.baseSlug charMap normalize title)
     = false
  /\ Shape.no_double_dash (ArticlesService.baseSlug charMap normalize title)
     = true.
Proof.
  pose proof (baseSlug_shape charMap normalize title) as T.
  unfold Shape.tidy in T.
  apply andb_true_iff in T. destruct T as [T T3].
  apply andb_true_iff in T. destruct T as [T1 T2].
  apply negb_true_iff in T1, T2. auto.
Qed.

Example baseSlug_tidy_sample :
  ArticlesService.baseSlug Sample.no_table Sample.no_normalize
    (lit " --Rust -- & - Go!-- ")
  = lit "rust-go".
Proof. reflexivity. Qed.

Section FixpointFacts.

Import Slug Shape.

Variable charMap : N -> option str.

Lemma slug_unit_cases c :
  is_slug_unit c = true ->
  c = dash \/ (97 <= c <= 122)%N \/ (48 <= c <= 57)%N.
Proof.
  unfold is_slug_unit, is_lower, is_digit, dash. intros H.
  apply orb_true_iff in H. destruct H as [H | H].
  - apply orb_true_iff in H. destruct H as [H | H];
      apply andb_true_iff in H; destruct H as [A B];
      apply N.leb_le in A, B; auto.
  - apply N.eqb_eq in H. auto.
Qed.

Lemma letter_digit_facts c :
  (97 <= c <= 122)%N \/ (48 <= c <= 57)%N ->
  is_space c = false /\ is_upper c = false /\ remove_class c = false
  /\ (c =? dash)%N = false
  /\ is_upper c || is_lower c || is_digit c || is_space c = true.
Proof.
  intros R.
  assert (B : (48 <= c <= 122)%N) by lia.
  assert (Sp : is_space c = false).
  { unfold is_space.
    rewrite (proj2 (N.leb_gt c 13)) by lia.
    rewrite (proj2 (N.leb_gt 8192 c)) by lia.
    rewrite !(proj2 (N.eqb_neq c _)) by lia.
    now rewrite andb_false_r. }
  assert (Rm : remove_class c = false).
  { unfold remove_class.
    cbn [lit list_ascii_of_string map N_of_ascii app existsb].
    cbn [Ascii.N_of_digits N.add N.mul Pos.add Pos.mul Pos.succ].
    rewrite !(proj2 (N.eqb_neq c _)) by lia. reflexivity. }
  assert (Nd : (c =? dash)%N = false) by (apply N.eqb_neq; unfold dash; lia).
  split; [exact Sp|]. split.
  - unfold is_upper. destruct R as [R | R].
    + now rewrite (proj2 (N.leb_gt c 90)), andb_false_r by lia.
    + now rewrite (proj2 (N.leb_gt 65 c)) by lia.
  - split; [exact Rm|]. split; [exact Nd|].
    unfold is_lower, is_digit. destruct R as [[R1 R2] | [R1 R2]].
    + rewrite (proj2 (N.leb_le 97 c) R1), (proj2 (N.leb_le c 122) R2).
      cbn. now rewrite orb_true_r.
    + rewrite (proj2 (N.leb_le 48 c) R1), (proj2 (N.leb_le c 57) R2).
      cbn. now rewrite !orb_true_r.
Qed.

(** What [appendChar] makes of a code unit of a slug: the dash becomes a
    space, the rest stays. *)
Lemma appendChar_slug_unit c :
  is_slug_unit c = true -> charMap c = None ->
  SlugifyLib.appendChar charMap slug_options c
  = [if (c =? dash)%N then 32%N else c].
Proof.
  intros U M. unfold SlugifyLib.appendChar. rewrite M.
  destruct (slug_unit_cases c U) as [-> | R]; [reflexivity|].
  destruct (letter_digit_facts c R) as [_ [_ [Rm [Nd _]]]].
  rewrite Nd.
  replace (str_eqb [c] SlugifyLib.replacement) with false.
  - cbn [filter slug_options SlugifyLib.remove]. now rewrite Rm.
  - symmetry. apply str_eqb_neq. intros E. inversion E. subst.
    discriminate Nd.
Qed.

Lemma respaced_back s :
  Forall (fun c => is_slug_unit c = true) s ->
  no_double_dash s = true ->
  SlugifyLib.replace_spaces false
    (map (fun c => if (c =? dash)%N then 32%N else c) s) = s
  /\ (starts_with_dash s = false ->
      SlugifyLib.replace_spaces true
        (map (fun c => if (c =? dash)%N then 32%N else c) s) = s).
Proof.
  induction s as [|c r IH]; intros U Nd; [now split|].
  inversion U as [|? ? Uc Ur]; subst.
  rewrite no_double_dash_cons in Nd. apply andb_true_iff in Nd.
  destruct Nd as [Nd1 Nd2]. destruct (IH Ur Nd2) as [IH1 IH2].
  cbn [map SlugifyLib.replace_spaces starts_with_dash].
  destruct (slug_unit_cases c Uc) as [-> | R].
  - cbn. rewrite N.eqb_refl in Nd1. cbn in Nd1.
    apply negb_true_iff in Nd1. rewrite (IH2 Nd1).
    split; [reflexivity | discriminate].
  - destruct (letter_digit_facts c R) as [Sp [_ [_ [Nc _]]]].
    rewrite Nc, Sp, IH1. now split.
Qed.

Lemma trim_untouched s :
  match s with c :: _ => is_space c = false | [] => True end ->
  match rev s with c :: _ => is_space c = false | [] => True end ->
  trim s = s.
Proof.
  intros Hh Ht. unfold trim, trimEnd.
  assert (E : forall x, match x with c :: _ => is_space c = false
                                  | [] => True end -> trimStart x = x).
  { intros [|c x] H; simpl; [reflexivity | now rewrite H]. }
  rewrite (E s Hh), (E (rev s) Ht). apply rev_involutive.
Qed.

Lemma slug_pipeline_fixpoint s :
  Forall (fun c => is_slug_unit c = true) s ->
  (forall c, is_slug_unit c = true -> charMap c = None) ->
  tidy s = true ->
  toLowerCase
    (SlugifyLib.replace_spaces false
       (trim (SlugifyLib.strict_filter
                (flat_map (SlugifyLib.appendChar charMap slug_options) s))))
  = s.
Proof.
  intros U M T. unfold tidy in T.
  apply andb_true_iff in T. destruct T as [T T3].
  apply andb_true_iff in T. destruct T as [T1 T2].
  apply negb_true_iff in T1, T2.
  set (f := fun c => if (c =? dash)%N then 32%N else c).
  assert (Hf : forall c, is_slug_unit c = true ->
                         (c =? dash)%N = false -> is_space (f c) = false).
  { intros c Uc Nc. unfold f. rewrite Nc.
    destruct (slug_unit_cases c Uc) as [-> | R]; [discriminate Nc|].
    apply (letter_digit_facts c R). }
  assert (E1 : flat_map (SlugifyLib.appendChar charMap slug_options) s
               = map f s).
  { clear T1 T2 T3. induction U as [|c r Uc Ur IH]; [reflexivity|].
    cbn [flat_map map]. rewrite IH, appendChar_slug_unit; auto. }
  assert (E2 : SlugifyLib.strict_filter (map f s) = map f s).
  { unfold SlugifyLib.strict_filter. clear T1 T2 T3 E1.
    induction U as [|c r Uc Ur IH]; [reflexivity|].
    cbn [map filter]. rewrite IH.
    replace (is_upper (f c) || is_lower (f c) || is_digit (f c)
             || is_space (f c)) with true; [reflexivity|].
    symmetry. unfold f.
    destruct (slug_unit_cases c Uc) as [-> | R]; [reflexivity|].
    destruct (letter_digit_facts c R) as [_ [_ [_ [Nc K]]]].
    now rewrite Nc. }
  assert (E3 : trim (map f s) = map f s).
  { apply trim_untouched.
    - destruct s as [|c r]; [exact I|]. cbn [map].
      inversion U; subst. now apply Hf.
    - rewrite <- map_rev. unfold ends_with_dash in T2.
      assert (Ur : Forall (fun c => is_slug_unit c = true) (rev s))
        by now apply Forall_rev.
      destruct (rev s) as [|c r]; [exact I|]. cbn [map].
      inversion Ur; subst. now apply Hf. }
  rewrite E1, E2, E3. unfold f. rewrite (proj1 (respaced_back s U T3)).
  unfold toLowerCase. rewrite <- (map_id s) at 2. apply map_ext_in.
  intros c Hc. rewrite Forall_forall in U. specialize (U c Hc).
  unfold lower_unit.
  destruct (slug_unit_cases c U) as [-> | R]; [reflexivity|].
  destruct (letter_digit_facts c R) as [_ [Up _]]. now rewrite Up.
Qed.

Lemma trimStart_spaces s :
  Forall (fun c => is_space c = true) s -> trimStart s = [].
Proof.
  induction 1 as [|c r Hc _ IH]; simpl; [reflexivity | now rewrite Hc].
Qed.

End FixpointFacts.

(** X5.  Slugifying a base slug gives it back: when the transliteration
    table has no entry for lower-case letters, digits and the dash, and
    normalisation leaves the base slug as it is, the base slug of a base
    slug is that base slug. *)
Theorem baseSlug_idempotent (charMap : N -> option str)
    (normalize : str -> str) (title : str) :
  (forall c, Slug.is_slug_unit c = true -> charMap c = None) ->
  normalize (ArticlesService.baseSlug charMap normalize title)
  = ArticlesService.baseSlug charMap normalize title ->
  ArticlesService.baseSlug charMap normalize
    (ArticlesService.baseSlug charMap normalize title)
  = ArticlesService.baseSlug charMap normalize title.
Proof.
  intros M Nz.
  unfold ArticlesService.baseSlug at 1. unfold SlugifyLib.slugify.
  cbn [Slug.slug_options SlugifyLib.strict SlugifyLib.lower].
  rewrite Nz. apply slug_pipeline_fixpoint; [|exact M|].
  - apply Forall_forall. apply forallb_forall. apply baseSlug_lower_case.
  - apply baseSlug_shape.
Qed.

Lemma baseSlug_idempotent_witness :
  (forall c, Slug.is_slug_unit c = true -> Sample.no_table c = None)
  /\ Sample.no_normalize
       (ArticlesService.baseSlug Sample.no_table Sample.no_normalize
          (lit "Hello, World!"))
     = ArticlesService.baseSlug Sample.no_table Sample.no_normalize
         (lit "Hello, World!")
  /\ ArticlesService.baseSlug Sample.no_table Sample.no_normalize
       (ArticlesService.baseSlug Sample.no_table Sample.no_normalize
          (lit "Hello, World!"))
     = ArticlesService.baseSlug Sample.no_table Sample.no_normalize
         (lit "Hello, World!").
Proof.
  split; [reflexivity|]. split; [reflexivity|].
  apply (baseSlug_idempotent Sample.no_table Sample.no_normalize
           (lit "Hello, World!")); reflexivity.
Defined.

(** X6.  A title whose normalised form holds no ASCII letter or digit and
    no code unit that the transliteration table maps has the empty base
    slug: its slug is the dash followed by the suffix.  The condition is on
    the title after Unicode normalisation, which can turn a code unit into
    an ASCII letter. *)
Theorem slug_of_title_without_letters (charMap : N -> option str)
    (normalize : str -> str) (title : str) (h : Handler) (w : World) :
  Forall (fun c => charMap c = None
                   /\ is_upper c || is_lower c || is_digit c = false)
         (normalize title) ->
  ArticlesService.baseSlug charMap normalize title = []
  /\ run h (ArticlesService.slugify charMap normalize title) w
     = match h _ (GetRandomValues 11) w with
       | (w1, Ok rv) =>
           (w1, [Invoked (GetRandomValues 11)],
            Ok (lit "-" ++ Slug.suffix_of 11 rv))
       | (w1, Err e) => (w1, [Invoked (GetRandomValues 11)], Err e)
       end.
Proof.
  intros H.
  assert (E : ArticlesService.baseSlug charMap normalize title = []).
  { unfold ArticlesService.baseSlug, SlugifyLib.slugify.
    cbn [Slug.slug_options SlugifyLib.strict SlugifyLib.lower].
    assert (Sp : Forall (fun c => is_space c = true)
                   (SlugifyLib.strict_filter
                      (flat_map
                         (SlugifyLib.appendChar charMap Slug.slug_options)
                         (normalize title)))).
    { unfold SlugifyLib.strict_filter. apply Forall_forall. intros x Hx.
      apply filter_In in Hx. destruct Hx as [Hx Kx].
      apply in_flat_map in Hx. destruct Hx as [c [Hc Hx]].
      rewrite Forall_forall in H. destruct (H c Hc) as [M A].
      unfold SlugifyLib.appendChar in Hx. rewrite M in Hx.
      apply filter_In in Hx. destruct Hx as [Hx _].
      destruct (str_eqb [c] SlugifyLib.replacement).
      - destruct Hx as [<- | []]. reflexivity.
      - destruct Hx as [<- | []]. now rewrite A in Kx. }
    unfold trim, trimEnd. now rewrite (trimStart_spaces _ Sp). }
  split; [exact E|].
  unfold ArticlesService.slugify. rewrite E.
  cbn [bind call run ArticlesService.generateUniqueSuffix].
  destruct (h _ (GetRandomValues 11) w) as [w1 [rv|e]]; reflexivity.
Qed.

(** A title in Japanese, and one of punctuation only. *)
Lemma slug_of_title_without_letters_witness :
  Forall (fun c => Sample.no_table c = None
                   /\ is_upper c || is_lower c || is_digit c = false)
         (Sample.no_normalize [26085%N; 26412%N; 35486%N])
  /\ ArticlesService.baseSlug Sample.no_table Sample.no_normalize
       [26085%N; 26412%N; 35486%N] = []
  /\ ArticlesService.baseSlug Sample.no_table Sample.no_normalize
       (lit "?! -- (...)") = [].
Proof.
  assert (H : Forall (fun c => Sample.no_table c = None
                               /\ is_upper c || is_lower c || is_digit c
                                  = false)
                (Sample.no_normalize [26085%N; 26412%N; 35486%N])).
  { repeat constructor. }
  split; [exact H|]. split; [|reflexivity].
  apply (slug_of_title_without_letters Sample.no_table Sample.no_normalize
           [26085%N; 26412%N; 35486%N] InMemory.handler Sample.world H).
Defined.

(** * Further properties of article creation, for every collaborator *)

Section AnyHandlerCreation.

Import Radash.

Variable charMap : N -> option str.
Variable normalize : str -> str.
Variable h : Handler.

(** The run of the tag block on a non-empty list. *)
Lemma createArticle_tags_any n0 r w :
  run h (ArticlesService.createArticle_tags (Some (n0 :: r))) w
  = match h _ (TagsFindByNames (unique (n0 :: r))) w with
    | (w1, Ok found) =>
        match diff (unique (n0 :: r)) (Shape.found_names found) with
        | [] =>
            (w1, [Invoked (TagsFindByNames (unique (n0 :: r)))], Ok found)
        | (_ :: _) as missing =>
            match h _ (TagsCreateMany
                         (ArticlesService.toCreateTagDtos missing)) w1 with
            | (w2, Ok created) =>
                (w2,
                 [Invoked (TagsFindByNames (unique (n0 :: r)));
                  Invoked (TagsCreateMany
                             (ArticlesService.toCreateTagDtos missing))],
                 Ok (Some (Shape.found_tags found ++ created)))
            | (w2, Err e) =>
                (w2,
                 [Invoked (TagsFindByNames (unique (n0 :: r)));
                  Invoked (TagsCreateMany
                             (ArticlesService.toCreateTagDtos missing))],
                 Err e)
            end
        end
    | (w1, Err e) =>
        (w1, [Invoked (TagsFindByNames (unique (n0 :: r)))], Err e)
    end.
Proof.
  unfold ArticlesService.createArticle_tags. cbn [bind call run].
  destruct (h _ (TagsFindByNames (unique (n0 :: r))) w)
    as [w1 [found|e]]; [|reflexivity].
  cbn [bind run].
  assert (E : match found with
              | Some ts => map tag_name ts
              | None => []
              end = Shape.found_names found) by now destruct found.
  rewrite E.
  destruct (diff (unique (n0 :: r)) (Shape.found_names found))
    as [|m ms]; [reflexivity|].
  cbn [List.length Nat.ltb Nat.leb bind call run].
  destruct (h _ (TagsCreateMany (ArticlesService.toCreateTagDtos (m :: ms)))
              w1) as [w2 [created|e]]; [|reflexivity].
  cbn [bind run]. now destruct found.
Qed.

Lemma diff_nothing l : diff l [] = l.
Proof. now destruct l. Qed.

(** The tag block answers [null] only when the request names tags, every
    name is dropped by [unique], and the lookup answers [null]; its trace
    holds tag calls only. *)
Lemma createArticle_tags_result tagList w :
  match run h (ArticlesService.createArticle_tags tagList) w with
  | (_, t, Ok tgs) =>
      (tgs = None ->
       exists tl, tagList = Some tl /\ tl <> [] /\ unique tl = []
                  /\ snd (h _ (TagsFindByNames []) w) = Ok None)
      /\ Trace.tag_calls t = t
      /\ Trace.persisted t = [] /\ Trace.draws t = []
  | (_, t, Err _) =>
      Trace.tag_calls t = t /\ Trace.persisted t = [] /\ Trace.draws t = []
  end.
Proof.
  destruct tagList as [[|n0 r]|];
    try (cbn; repeat split; try discriminate; fail).
  rewrite createArticle_tags_any.
  destruct (h _ (TagsFindByNames (unique (n0 :: r))) w)
    as [w1 [found|e]] eqn:L; [|cbn; repeat split].
  destruct (diff (unique (n0 :: r)) (Shape.found_names found))
    as [|m ms] eqn:D.
  - destruct found as [ts|]; [cbn; repeat split; discriminate|].
    unfold Shape.found_names in D. rewrite diff_nothing in D.
    split; [|cbn; repeat split].
    intros _. exists (n0 :: r). rewrite D in L. rewrite L.
    repeat split; [discriminate | exact D].
  - cbv beta iota zeta.
    match goal with
    | |- context [h _ (TagsCreateMany ?d) w1] =>
        destruct (h _ (TagsCreateMany d) w1) as [w2 [created|e]]
    end; cbn; repeat split; discriminate.
Qed.

(** The run of the creation flow after the tag block. *)
Lemma flow_after_tags dto user w :
  run h (ArticlesService.createArticleWithTransaction
           charMap normalize dto user) w
  = match run h (ArticlesService.createArticle_tags (create_tagList dto)) w
    with
    | (w1, t1, Ok tgs) =>
        match h _ (GetRandomValues 11) w1 with
        | (w2, Ok rv) =>
            let p := {| payload_title := create_title dto;
                        payload_body := create_body dto;
                        payload_author_id := jwt_id user;
                        payload_tagList := tgs;
                        payload_slug :=
                          ArticlesService.baseSlug charMap normalize
                            (create_title dto)
                          ++ lit "-" ++ Slug.suffix_of 11 rv |} in
            match h _ (ArticleCreate p) w2 with
            | (w3, Ok a) =>
                let '(w4, t, res) :=
                  run h (ArticlesService.validateAndFetchArticleWithRelationsById
                           (option_map article_id a)) w3 in
                (w4,
                 t1 ++ Invoked (GetRandomValues 11)
                       :: Invoked (ArticleCreate p) :: t,
                 res)
            | (w3, Err e) =>
                (w3,
                 t1 ++ [Invoked (GetRandomValues 11);
                        Invoked (ArticleCreate p)],
                 Err e)
            end
        | (w2, Err e) => (w2, t1 ++ [Invoked (GetRandomValues 11)], Err e)
        end
    | (w1, t1, Err e) => (w1, t1, Err e)
    end.
Proof.
  unfold ArticlesService.createArticleWithTransaction. rewrite run_bind.
  destruct (run h (ArticlesService.createArticle_tags (create_tagList dto)) w)
    as [[w1 t1] [tgs|e]]; [|reflexivity].
  unfold ArticlesService.slugify.
  cbn [bind call run ArticlesService.generateUniqueSuffix].
  destruct (h _ (GetRandomValues 11) w1) as [w2 [rv|e]]; [|reflexivity].
  cbn [bind call run]. cbv zeta.
  match goal with
  | |- ?L = ?R =>
      match L with
      | context [h _ (ArticleCreate ?p1) w2] =>
          match R with
          | context [h _ (ArticleCreate ?p2) w2] => change p2 with p1
          end
      end
  end.
  match goal with
  | |- context [h _ (ArticleCreate ?p) w2] =>
      destruct (h _ (ArticleCreate p) w2) as [w3 [a|e]]; [|reflexivity]
  end.
  destruct (run h (ArticlesService.validateAndFetchArticleWithRelationsById
                     (option_map article_id a)) w3) as [[w4 t] res].
  reflexivity.
Qed.

Lemma validate_trace id w :
  Trace.persisted
    (trace_of (run h (ArticlesService.validateAndFetchArticleWithRelationsById
                        id) w)) = []
  /\ Trace.draws
       (trace_of (run h
                    (ArticlesService.validateAndFetchArticleWithRelationsById
                       id) w)) = []
  /\ Trace.creations
       (trace_of (run h
                    (ArticlesService.validateAndFetchArticleWithRelationsById
                       id) w)) = [].
Proof.
  rewrite run_validate.
  destruct (h _ (ArticleFindByIdWithRelations id) w) as [w1 [[a|]|e]];
    repeat split.
Qed.

End AnyHandlerCreation.

Section AnyHandlerTraces.

Variable charMap : N -> option str.
Variable normalize : str -> str.
Variable h : Handler.

(** [create] adds the brackets of the transaction to the trace of the
    flow, and nothing else. *)
Lemma create_collect {A} (f : Event -> option A) dto user w :
  f Begin = None -> f Commit = None -> f Rollback = None ->
  Trace.collect f
    (trace_of (run h (ArticlesService.create charMap normalize dto user) w))
  = Trace.collect f
      (trace_of (run h (ArticlesService.createArticleWithTransaction
                          charMap normalize dto user) w)).
Proof.
  intros Hb Hc Hr. unfold ArticlesService.create. cbn [run].
  destruct (run h (ArticlesService.createArticleWithTransaction
                     charMap normalize dto user) w) as [[w1 t1] [a|e]];
    unfold trace_of; cbn [fst snd Trace.collect]; rewrite Hb, collect_app;
    cbn [Trace.collect]; rewrite ?Hc, ?Hr; apply app_nil_r.
Qed.

Lemma flow_persisted dto user w :
  Trace.persisted
    (trace_of (run h (ArticlesService.createArticleWithTransaction
                        charMap normalize dto user) w))
  = match run h (ArticlesService.createArticle_tags (create_tagList dto)) w
    with
    | (w1, _, Ok tgs) =>
        match h _ (GetRandomValues 11) w1 with
        | (_, Ok rv) =>
            [ {| payload_title := create_title dto;
                 payload_body := create_body dto;
                 payload_author_id := jwt_id user;
                 payload_tagList := tgs;
                 payload_slug :=
                   ArticlesService.baseSlug charMap normalize
                     (create_title dto)
                   ++ lit "-" ++ Slug.suffix_of 11 rv |} ]
        | (_, Err _) => []
        end
    | (_, _, Err _) => []
    end.
Proof.
  rewrite flow_after_tags.
  pose proof (createArticle_tags_result h (create_tagList dto) w) as T.
  destruct (run h (ArticlesService.createArticle_tags (create_tagList dto)) w)
    as [[w1 t1] [tgs|e]]; [|apply T].
  destruct T as [_ [_ [Tp _]]].
  destruct (h _ (GetRandomValues 11) w1) as [w2 [rv|e]];
    [|unfold trace_of, Trace.persisted in *; cbn [fst snd];
      now rewrite collect_app, Tp].
  cbv zeta.
  match goal with
  | |- context [h _ (ArticleCreate ?p) w2] =>
      destruct (h _ (ArticleCreate p) w2) as [w3 [a|e]]
  end.
  - pose proof (validate_trace h (option_map article_id a) w3) as [V _].
    destruct (run h (ArticlesService.validateAndFetchArticleWithRelationsById
                       (option_map article_id a)) w3) as [[w4 t] res].
    unfold trace_of, Trace.persisted in *. cbn [fst snd] in *.
    rewrite collect_app, Tp. cbn [Trace.collect Trace.persisted_of app].
    now rewrite V.
  - unfold trace_of, Trace.persisted in *. cbn [fst snd].
    now rewrite collect_app, Tp.
Qed.

Lemma flow_draws dto user w :
  Trace.draws
    (trace_of (run h (ArticlesService.createArticleWithTransaction
                        charMap normalize dto user) w))
  = match run h (ArticlesService.createArticle_tags (create_tagList dto)) w
    with
    | (_, _, Ok _) => [11%nat]
    | (_, _, Err _) => []
    end.
Proof.
  rewrite flow_after_tags.
  pose proof (createArticle_tags_result h (create_tagList dto) w) as T.
  destruct (run h (ArticlesService.createArticle_tags (create_tagList dto)) w)
    as [[w1 t1] [tgs|e]]; [|apply T].
  destruct T as [_ [_ [_ Td]]].
  destruct (h _ (GetRandomValues 11) w1) as [w2 [rv|e]];
    [|unfold trace_of, Trace.draws in *; cbn [fst snd];
      now rewrite collect_app, Td].
  cbv zeta.
  match goal with
  | |- context [h _ (ArticleCreate ?p) w2] =>
      destruct (h _ (ArticleCreate p) w2) as [w3 [a|e]]
  end.
  - pose proof (validate_trace h (option_map article_id a) w3) as [_ [V _]].
    destruct (run h (ArticlesService.validateAndFetchArticleWithRelationsById
                       (option_map article_id a)) w3) as [[w4 t] res].
    unfold trace_of, Trace.draws in *. cbn [fst snd] in *.
    rewrite collect_app, Td. cbn [Trace.collect Trace.draw_of app].
    now rewrite V.
  - unfold trace_of, Trace.draws in *. cbn [fst snd].
    now rewrite collect_app, Td.
Qed.

Lemma flow_creations dto user w :
  Trace.creations
    (trace_of (run h (ArticlesService.createArticleWithTransaction
                        charMap normalize dto user) w))
  = Trace.creations
      (trace_of (run h (ArticlesService.createArticle_tags
                          (create_tagList dto)) w)).
Proof.
  rewrite flow_after_tags.
  destruct (run h (ArticlesService.createArticle_tags (create_tagList dto)) w)
    as [[w1 t1] [tgs|e]]; [|reflexivity].
  destruct (h _ (GetRandomValues 11) w1) as [w2 [rv|e]];
    [|unfold trace_of, Trace.creations; cbn [fst snd];
      rewrite collect_app; apply app_nil_r].
  cbv zeta.
  match goal with
  | |- context [h _ (ArticleCreate ?p) w2] =>
      destruct (h _ (ArticleCreate p) w2) as [w3 [a|e]]
  end.
  - pose proof (validate_trace h (option_map article_id a) w3)
      as [_ [_ V]].
    destruct (run h (ArticlesService.validateAndFetchArticleWithRelationsById
                       (option_map article_id a)) w3) as [[w4 t] res].
    unfold trace_of, Trace.creations in *. cbn [fst snd] in *.
    rewrite collect_app. cbn [Trace.collect Trace.creation_of].
    rewrite V. apply app_nil_r.
  - unfold trace_of, Trace.creations. cbn [fst snd].
    rewrite collect_app. apply app_nil_r.
Qed.

End AnyHandlerTraces.

(** X7.  Whatever the collaborators answer, [create] hands the article
    repository at most one payload.  The payload's tag list is [null] only
    when the request names at least one tag, every requested name is a
    property that plain objects inherit (so that [unique] returns the empty
    list), and the lookup, made with the empty list, answers [null]; in
    every other case it is a list. *)
Theorem persisted_tagList_null_only_inherited (charMap : N -> option str)
    (normalize : str -> str) (h : Handler) (dto : CreateArticleDto)
    (user : JwtPayloadType) (w : World) :
  let tr := trace_of (run h (ArticlesService.create
                               charMap normalize dto user) w) in
  (List.length (Trace.persisted tr) <= 1)%nat
  /\ Forall (fun p =>
               (exists ts, payload_tagList p = Some ts)
               \/ (payload_tagList p = None
                   /\ exists tl,
                        create_tagList dto = Some tl /\ tl <> []
                        /\ Forall (fun n => Radash.inherited n = true) tl
                        /\ Radash.unique tl = []
                        /\ snd (h _ (TagsFindByNames []) w) = Ok None))
            (Trace.persisted tr).
Proof.
  cbv zeta. unfold Trace.persisted.
  rewrite create_collect by reflexivity.
  fold (Trace.persisted
          (trace_of (run h (ArticlesService.createArticleWithTransaction
                              charMap normalize dto user) w))).
  rewrite flow_persisted.
  pose proof (createArticle_tags_result h (create_tagList dto) w) as T.
  destruct (run h (ArticlesService.createArticle_tags (create_tagList dto)) w)
    as [[w1 t1] [tgs|e]]; [|split; [cbn; lia | constructor]].
  destruct T as [T _].
  destruct (h _ (GetRandomValues 11) w1) as [w2 [rv|e]];
    [|split; [cbn; lia | constructor]].
  split; [cbn; lia|]. constructor; [|constructor]. cbn [payload_tagList].
  destruct tgs as [ts|]; [left; now exists ts|]. right.
  destruct (T eq_refl) as [tl [E [Hne [Hu Hl]]]].
  split; [reflexivity|]. exists tl.
  repeat match goal with |- _ /\ _ => split end; auto.
  now apply unique_empty.
Qed.

(** The request toString against a tags service whose lookup answers
    [null]: the lookup is made with the empty list, no tag is created, and
    the article repository receives [null] as the tag list. *)
Example inherited_name_null_tagList :
  let x := run Fixture.lookup_null
             (ArticlesService.create Sample.no_table Sample.no_normalize
                Fixture.only_inherited Sample.as_alice) Fixture.blank in
  Radash.unique [lit "toString"] = []
  /\ Trace.lookups (trace_of x) = [[]]
  /\ Trace.creations (trace_of x) = []
  /\ map payload_tagList (Trace.persisted (trace_of x)) = [None].
Proof. repeat split; reflexivity. Qed.

(** A lookup that answers [null]: every requested name is created, and the
    stored tag list is the list of the created tags. *)
Example lookup_null_sample :
  let x := run Fixture.lookup_null
             (ArticlesService.create Sample.no_table Sample.no_normalize
                Sample.hello Sample.as_alice) Fixture.blank in
  map (map dto_name) (Trace.creations (trace_of x))
  = [[lit "go"; lit "rust"]]
  /\ map (option_map (map tag_name))
         (map payload_tagList (Trace.persisted (trace_of x)))
     = [Some [lit "go"; lit "rust"]].
Proof. split; reflexivity. Qed.

(** X8.  Whatever the collaborators answer, [create] calls the tags
    service's createMany at most once and never with an empty list; the
    names it sends are pairwise distinct, and they are exactly the
    requested names that are neither a property that plain objects inherit
    (those [unique] drops) nor the name of a tag the lookup returned (no
    call at all when the lookup fails). *)
Theorem createMany_only_plain_missing (charMap : N -> option str)
    (normalize : str -> str) (h : Handler) (dto : CreateArticleDto)
    (user : JwtPayloadType) (tl : list str) (w : World) :
  create_tagList dto = Some tl ->
  let tr := trace_of (run h (ArticlesService.create
                               charMap normalize dto user) w) in
  let names := map dto_name (List.concat (Trace.creations tr)) in
  (List.length (Trace.creations tr) <= 1)%nat
  /\ Forall (fun dtos => dtos <> []) (Trace.creations tr)
  /\ NoDup names
  /\ match h _ (TagsFindByNames (Radash.unique tl)) w with
     | (_, Ok found) =>
         forall n, In n names
                   <-> In n tl /\ Radash.inherited n = false
                       /\ ~ In n (Shape.found_names found)
     | (_, Err _) => names = []
     end.
Proof.
  intros Htl. cbv zeta. unfold Trace.creations.
  rewrite create_collect by reflexivity.
  fold (Trace.creations
          (trace_of (run h (ArticlesService.createArticleWithTransaction
                              charMap normalize dto user) w))).
  rewrite flow_creations, Htl.
  destruct tl as [|n0 r].
  - cbn. repeat split; try constructor; try lia.
    destruct (h _ (TagsFindByNames []) w) as [w1 [found|e]];
      [|reflexivity].
    intros n. cbn. tauto.
  - rewrite createArticle_tags_any.
    destruct (h _ (TagsFindByNames (Radash.unique (n0 :: r))) w)
      as [w1 [found|e]];
      [|cbn; repeat split; try constructor; lia].
    pose proof (diff_In (Radash.unique (n0 :: r)) (Shape.found_names found))
      as Hin.
    pose proof (diff_NoDup (Radash.unique (n0 :: r))
                  (Shape.found_names found) (unique_NoDup (n0 :: r)))
      as Hnd.
    destruct (Radash.diff (Radash.unique (n0 :: r))
                (Shape.found_names found)) as [|m ms].
    + unfold trace_of. cbn [fst snd Trace.creations Trace.collect
                             Trace.creation_of Trace.lookup_of List.concat
                             List.length map].
      split; [lia|]. split; [constructor|]. split; [constructor|].
      intros n. split; [intros [] | intros [Hn [Hi Hf]]].
      apply (proj2 (Hin n)).
      split; [apply unique_In; now split|]. split; [exact Hf | now right].
    + cbv beta iota zeta.
      match goal with
      | |- context [h _ (TagsCreateMany ?d) w1] =>
          destruct (h _ (TagsCreateMany d) w1) as [w2 [created|e]]
      end;
        unfold trace_of; cbn [fst snd Trace.creations Trace.collect
                              Trace.creation_of List.concat List.length];
        rewrite app_nil_r, toCreateTagDtos_names;
        (split; [lia|]);
        (split; [constructor; [discriminate | constructor]|]);
        (split; [exact Hnd|]);
        intros n; rewrite Hin, unique_In; tauto.
Qed.

Lemma createMany_only_plain_missing_witness :
  create_tagList Sample.hello = Some [lit "go"; lit "rust"; lit "go"]
  /\ NoDup (map dto_name
              (List.concat
                 (Trace.creations
                    (trace_of (run InMemory.handler
                                 (ArticlesService.create
                                    Sample.no_table Sample.no_normalize
                                    Sample.hello Sample.as_alice)
                                 Sample.world))))).
Proof.
  assert (H : create_tagList Sample.hello
              = Some [lit "go"; lit "rust"; lit "go"]) by reflexivity.
  split; [exact H|].
  destruct (createMany_only_plain_missing Sample.no_table Sample.no_normalize
              InMemory.handler Sample.hello Sample.as_alice
              [lit "go"; lit "rust"; lit "go"] Sample.world H)
    as [_ [_ [Hnd _]]].
  exact Hnd.
Defined.

(** X9.  When the tag block fails (the lookup or the creation of tags
    throws), [create] fails with the same error after a rollback: no random
    byte is drawn and the article repository is not called.  When the tag
    block succeeds, random bytes are drawn exactly once, 11 of them. *)
Theorem tag_failure_stops_creation (charMap : N -> option str)
    (normalize : str -> str) (h : Handler) (dto : CreateArticleDto)
    (user : JwtPayloadType) (w : World) :
  let x := run h (ArticlesService.create charMap normalize dto user) w in
  match run h (ArticlesService.createArticle_tags (create_tagList dto)) w with
  | (w1, t1, Err e) =>
      x = (rollback w w1, Begin :: t1 ++ [Rollback], Err e)
      /\ Trace.tag_calls t1 = t1
      /\ Trace.persisted (trace_of x) = []
      /\ Trace.draws (trace_of x) = []
  | (_, _, Ok _) => Trace.draws (trace_of x) = [11%nat]
  end.
Proof.
  cbv zeta.
  pose proof (flow_draws charMap normalize h dto user w) as Hd.
  pose proof (flow_persisted charMap normalize h dto user w) as Hp.
  pose proof (flow_after_tags charMap normalize h dto user w) as Hf.
  pose proof (createArticle_tags_result h (create_tagList dto) w) as T.
  unfold Trace.draws, Trace.persisted in *.
  rewrite !create_collect by reflexivity.
  destruct (run h (ArticlesService.createArticle_tags (create_tagList dto)) w)
    as [[w1 t1] [tgs|e]]; [exact Hd|].
  split; [|split; [apply T | split; [exact Hp | exact Hd]]].
  unfold ArticlesService.create. cbn [run]. now rewrite Hf.
Qed.

(** A tags service whose creation is refused: the lookup and the creation
    are the whole trace of the transaction. *)
Example tag_failure_sample :
  run (InMemory.failing
         (fun X c => match c with TagsCreateMany _ => true | _ => false end))
    (ArticlesService.create Sample.no_table Sample.no_normalize
       Sample.hello Sample.as_alice) Sample.world
  = (Sample.world,
     [Begin;
      Invoked (TagsFindByNames [lit "go"; lit "rust"]);
      Invoked (TagsCreateMany [ {| dto_name := lit "rust" |} ]);
      Rollback],
     Err StorageFailure).
Proof. reflexivity. Qed.

(** * Further properties of comment removal and article update *)

(** X10.  The order of the checks of [removeComment], for every behaviour
    of the collaborators: the article is looked up first and an unknown
    slug signals NotFound before the comment is touched; then the comment
    is fetched and an unknown id signals NotFound; then authorship is
    checked and a foreign actor gets Unauthorized; only after the three
    checks is the repository's remove called, once, and its outcome is the
    outcome of [removeComment]. *)
Theorem removeComment_check_order (h : Handler) (id : Id) (slug : str)
    (actor : JwtPayloadType) (w : World) :
  let x := run h (ArticlesService.removeComment id slug actor) w in
  match h _ (ArticleFindBySlug slug) w with
  | (w1, Ok None) =>
      x = (w1, [Invoked (ArticleFindBySlug slug)],
           Err (NotFoundException 404 "slug" "Artilce not found"))
  | (w1, Err e) => x = (w1, [Invoked (ArticleFindBySlug slug)], Err e)
  | (w1, Ok (Some _)) =>
      match h _ (CommentFindById id) w1 with
      | (w2, Ok None) =>
          x = (w2, [Invoked (ArticleFindBySlug slug);
                    Invoked (CommentFindById id)],
               Err (NotFoundException 404 "id" "Comment not found"))
      | (w2, Err e) =>
          x = (w2, [Invoked (ArticleFindBySlug slug);
                    Invoked (CommentFindById id)], Err e)
      | (w2, Ok (Some c)) =>
          if CommentsService.authored_by c actor
          then let '(w3, r) := h _ (CommentRemove id) w2 in
               x = (w3, [Invoked (ArticleFindBySlug slug);
                         Invoked (CommentFindById id);
                         Invoked (CommentRemove id)], r)
          else x = (w2, [Invoked (ArticleFindBySlug slug);
                         Invoked (CommentFindById id)],
                    Err (UnauthorizedException 401 "id"
                           "Not unauthorized to delete the comment"))
      end
  end.
Proof.
  cbv zeta. rewrite removeComment_ignores_article.
  destruct (h _ (ArticleFindBySlug slug) w) as [w1 [[a|]|e]];
    try reflexivity.
  unfold CommentsService.remove, CommentsService.validateAndFetchComment.
  cbn [bind call run].
  destruct (h _ (CommentFindById id) w1) as [w2 [[c|]|e]]; try reflexivity.
  cbn [bind run]. rewrite author_differs_authored.
  destruct (CommentsService.authored_by c actor); [|reflexivity].
  cbn [negb bind call run].
  destruct (h _ (CommentRemove id) w2) as [w3 [[]|e]]; reflexivity.
Qed.

(** Alice's comment, through a slug nobody has: the comment stays. *)
Example removeComment_unknown_slug :
  run InMemory.handler
    (ArticlesService.removeComment 3%N (lit "no-such-slug") Sample.as_alice)
    Sample.world
  = (Sample.world, [Invoked (ArticleFindBySlug (lit "no-such-slug"))],
     Err ArticlesService.article_not_found).
Proof. reflexivity. Qed.

(** X11.  An empty title does not make a new slug although it differs from
    the stored title: for every behaviour of the collaborators, [update]
    with the title [""] hands the repository a payload with that title and
    without a slug, and draws no random bytes.  The same holds when the
    title is absent. *)
Theorem update_with_empty_title (charMap : N -> option str)
    (normalize : str -> str) (h : Handler) (id : Id) (body : option str)
    (w : World) :
  let empty := {| update_title := Some []; update_body := body |} in
  let absent := {| update_title := None; update_body := body |} in
  match h _ (ArticleFindById id) w with
  | (_, Ok (Some a)) =>
      Trace.updates
        (trace_of (run h (ArticlesService.update charMap normalize id empty)
                     w))
      = [(a, {| upd_body := body; upd_title := Some []; upd_slug := None |})]
      /\ Trace.draws
           (trace_of (run h (ArticlesService.update
                               charMap normalize id empty) w)) = []
      /\ Trace.updates
           (trace_of (run h (ArticlesService.update
                               charMap normalize id absent) w))
         = [(a, {| upd_body := body; upd_title := None; upd_slug := None |})]
      /\ Trace.draws
           (trace_of (run h (ArticlesService.update
                               charMap normalize id absent) w)) = []
  | _ =>
      Trace.updates
        (trace_of (run h (ArticlesService.update charMap normalize id empty)
                     w)) = []
      /\ Trace.updates
           (trace_of (run h (ArticlesService.update
                               charMap normalize id absent) w)) = []
  end.
Proof.
  cbv zeta.
  destruct (h _ (ArticleFindById id) w) as [w1 [[a|]|e]] eqn:Hfetch.
  - rewrite !(update_run_unchanged charMap normalize h id _ w w1 a Hfetch)
      by reflexivity.
    cbv zeta. cbn [update_body update_title].
    repeat match goal with
           | |- context [h _ (ArticleUpdate a ?p) w1] =>
               destruct (h _ (ArticleUpdate a p) w1) as [? [?|?]]
           | |- context [h _ (ArticleFindByIdWithRelations ?i) ?w'] =>
               destruct (h _ (ArticleFindByIdWithRelations i) w')
                 as [? [?|?]]
           end; repeat split.
  - unfold ArticlesService.update,
      ArticlesService.validateAndFetchArticleById.
    cbn [bind call run]. rewrite Hfetch. split; reflexivity.
  - unfold ArticlesService.update,
      ArticlesService.validateAndFetchArticleById.
    cbn [bind call run]. rewrite Hfetch. split; reflexivity.
Qed.

(** In memory: the first post gets the empty title and keeps its slug. *)
Example update_with_empty_title_sample :
  let dto := {| update_title := Some []; update_body := None |} in
  let y := run InMemory.handler
             (ArticlesService.update Sample.no_table Sample.no_normalize
                1%N dto) Sample.world in
  option_map article_title (InMemory.articleFindById 1%N (world_of y))
  = Some []
  /\ option_map article_slug (InMemory.articleFindById 1%N (world_of y))
     = Some (lit "first-post-uuuuuuuuuuu").
Proof. split; reflexivity. Qed.

(** * Properties of comment creation and comment listing *)

Section WideFacts.

Variable h : Handler.
Variable g : Wide.HandlerMore.

Lemma wide_run_bind {A B} (p : Wide.Tree A) (f : A -> Wide.Tree B) :
  forall w,
    Wide.run h g (Wide.bind p f) w
    = match Wide.run h g p w with
      | (w1, t1, Ok a) =>
          let '(w2, t2, r) := Wide.run h g (f a) w1 in (w2, t1 ++ t2, r)
      | (w1, t1, Err e) => (w1, t1, Err e)
      end.
Proof.
  induction p as [A a|A e|A X c k IH|A X c k IH|A X body _ k IH];
    intros w; simpl.
  - now destruct (Wide.run h g (f a) w) as [[w2 t2] r].
  - reflexivity.
  - destruct (h X c w) as [w1 [x|e]]; [|reflexivity].
    rewrite IH.
    destruct (Wide.run h g (k x) w1) as [[w2 t2] [a|e]]; [|reflexivity].
    now destruct (Wide.run h g (f a) w2) as [[w3 t3] r].
  - destruct (g X c w) as [w1 [x|e]]; [|reflexivity].
    rewrite IH.
    destruct (Wide.run h g (k x) w1) as [[w2 t2] [a|e]]; [|reflexivity].
    now destruct (Wide.run h g (f a) w2) as [[w3 t3] r].
  - destruct (Wide.run h g body w) as [[w1 t1] [x|e]]; [|reflexivity].
    rewrite IH.
    destruct (Wide.run h g (k x) w1) as [[w2 t2] [a|e]]; [|reflexivity].
    destruct (Wide.run h g (f a) w2) as [[w3 t3] r].
    simpl. now rewrite <- app_assoc.
Qed.

(** A lifted method runs as it did, call for call. *)
Lemma wide_run_lift {A} (p : Prog A) : forall w,
  Wide.run h g (Wide.lift p) w
  = let '(w1, t, r) := run h p w in (w1, map Wide.Core t, r).
Proof.
  induction p as [A a|A e|A X c k IH|A X body IHb k IH]; intros w; simpl.
  - reflexivity.
  - reflexivity.
  - destruct (h X c w) as [w1 [x|e]]; [|reflexivity].
    rewrite IH. now destruct (run h (k x) w1) as [[w2 t] r].
  - rewrite IHb. destruct (run h body w) as [[w1 t1] [x|e]].
    + rewrite IH. destruct (run h (k x) w1) as [[w2 t2] r].
      cbn [map]. rewrite map_app. reflexivity.
    + cbn [map]. rewrite map_app. reflexivity.
Qed.

Lemma wide_fetch_by_slug slug w :
  Wide.run h g
    (Wide.lift (ArticlesService.validateAndFetchArticleBySlug slug)) w
  = match h _ (ArticleFindBySlug slug) w with
    | (w1, Ok (Some a)) =>
        (w1, [Wide.Core (Invoked (ArticleFindBySlug slug))], Ok a)
    | (w1, Ok None) =>
        (w1, [Wide.Core (Invoked (ArticleFindBySlug slug))],
         Err ArticlesService.article_not_found)
    | (w1, Err e) =>
        (w1, [Wide.Core (Invoked (ArticleFindBySlug slug))], Err e)
    end.
Proof.
  rewrite wide_run_lift.
  unfold ArticlesService.validateAndFetchArticleBySlug.
  cbn [bind call run].
  destruct (h _ (ArticleFindBySlug slug) w) as [w1 [[a|]|e]]; reflexivity.
Qed.

Lemma comments_create_run article_id body actor w :
  Wide.run h g (Comments.create article_id body actor) w
  = let payload := {| cp_article_id := article_id;
                      cp_body := body;
                      cp_author_id := jwt_id actor |} in
    match g _ (Wide.CommentCreate payload) w with
    | (w1, Ok c) =>
        match g _ (Wide.UserFindById (jwt_id actor)) w1 with
        | (w2, Ok (Some u)) =>
            (w2, [Wide.InvokedMore (Wide.CommentCreate payload);
                  Wide.InvokedMore (Wide.UserFindById (jwt_id actor))],
             Ok (Comments.set_author c u))
        | (w2, Ok None) =>
            (w2, [Wide.InvokedMore (Wide.CommentCreate payload);
                  Wide.InvokedMore (Wide.UserFindById (jwt_id actor))],
             Ok c)
        | (w2, Err e) =>
            (w2, [Wide.InvokedMore (Wide.CommentCreate payload);
                  Wide.InvokedMore (Wide.UserFindById (jwt_id actor))],
             Err e)
        end
    | (w1, Err e) =>
        (w1, [Wide.InvokedMore (Wide.CommentCreate payload)], Err e)
    end.
Proof.
  unfold Comments.create. cbv zeta.
  cbn [Wide.bind Wide.more Wide.run].
  destruct (g _ (Wide.CommentCreate _) w) as [w1 [c|e]]; [|reflexivity].
  cbn [Wide.bind Wide.run].
  destruct (g _ (Wide.UserFindById (jwt_id actor)) w1) as [w2 [[u|]|e]];
    reflexivity.
Qed.

End WideFacts.

(** X12.  [CommentsService.create] stores the comment with the actor's id
    as [author_id] and then looks the actor up.  The comment it returns
    carries the user found as its author, whatever author the repository
    returned, and is the repository's comment as it is when no user is
    found.  The two calls are not in a transaction: when the user lookup
    throws, the error is passed on after the comment has been created. *)
Theorem comment_create_attaches_author (h : Handler)
    (g : Wide.HandlerMore) (article_id : Id) (body : str)
    (actor : JwtPayloadType) (w : World) :
  let x := Wide.run h g (Comments.create article_id body actor) w in
  let payload := {| cp_article_id := article_id;
                    cp_body := body;
                    cp_author_id := jwt_id actor |} in
  Wide.comments_created (snd (fst x)) = [payload]
  /\ filter Wide.is_bracket (snd (fst x)) = []
  /\ match g _ (Wide.CommentCreate payload) w with
     | (w1, Ok c) =>
         Wide.user_lookups (snd (fst x)) = [jwt_id actor]
         /\ match g _ (Wide.UserFindById (jwt_id actor)) w1 with
            | (w2, Ok (Some u)) =>
                snd x = Ok (Comments.set_author c u)
                /\ comment_author (Comments.set_author c u) = Some u
                /\ comment_id (Comments.set_author c u) = comment_id c
                /\ comment_body (Comments.set_author c u) = comment_body c
                /\ comment_article_id (Comments.set_author c u)
                   = comment_article_id c
            | (w2, Ok None) => snd x = Ok c
            | (w2, Err e) => snd x = Err e /\ fst (fst x) = w2
            end
     | (w1, Err e) =>
         snd x = Err e /\ Wide.user_lookups (snd (fst x)) = []
     end.
Proof.
  cbv zeta. rewrite comments_create_run. cbv zeta.
  destruct (g _ (Wide.CommentCreate _) w) as [w1 [c|e]];
    [|repeat split].
  destruct (g _ (Wide.UserFindById (jwt_id actor)) w1) as [w2 [[u|]|e]];
    repeat split.
Qed.

(** The users service is down: the comment has been created, the caller
    gets the failure. *)
Example comment_create_user_lookup_fails :
  Wide.run InMemory.handler Fixture.users_down
    (Comments.create 1%N (lit "nice") Sample.as_alice) Sample.world
  = (Sample.world,
     [Wide.InvokedMore
        (Wide.CommentCreate {| cp_article_id := 1%N; cp_body := lit "nice";
                               cp_author_id := 7%N |});
      Wide.InvokedMore (Wide.UserFindById 7%N)],
     Err StorageFailure).
Proof. reflexivity. Qed.

(** X13.  [createComment] resolves the article by slug first.  An unknown
    slug signals NotFound and nothing is created; otherwise the comment is
    created, once, on the id of the article the slug resolved to, with the
    given body and the actor's id as [author_id], and the outcome is that
    of [CommentsService.create]. *)
Theorem createComment_by_slug (h : Handler) (g : Wide.HandlerMore)
    (slug body : str) (actor : JwtPayloadType) (w : World) :
  let x := Wide.run h g (Articles.createComment slug body actor) w in
  match h _ (ArticleFindBySlug slug) w with
  | (w1, Ok (Some a)) =>
      Wide.comments_created (snd (fst x))
      = [ {| cp_article_id := article_id a;
             cp_body := body;
             cp_author_id := jwt_id actor |} ]
      /\ (let '(w2, t, r) :=
            Wide.run h g (Comments.create (article_id a) body actor) w1 in
          x = (w2, Wide.Core (Invoked (ArticleFindBySlug slug)) :: t, r))
  | (w1, Ok None) =>
      x = (w1, [Wide.Core (Invoked (ArticleFindBySlug slug))],
           Err (NotFoundException 404 "slug" "Artilce not found"))
      /\ Wide.comments_created (snd (fst x)) = []
  | (w1, Err e) =>
      x = (w1, [Wide.Core (Invoked (ArticleFindBySlug slug))], Err e)
      /\ Wide.comments_created (snd (fst x)) = []
  end.
Proof.
  cbv zeta. unfold Articles.createComment.
  rewrite wide_run_bind, wide_fetch_by_slug.
  destruct (h _ (ArticleFindBySlug slug) w) as [w1 [[a|]|e]];
    [|split; reflexivity|split; reflexivity].
  rewrite comments_create_run. cbv zeta.
  destruct (g _ (Wide.CommentCreate _) w1) as [w2 [c|e]];
    [|split; reflexivity].
  destruct (g _ (Wide.UserFindById (jwt_id actor)) w2) as [w3 [[u|]|e]];
    split; reflexivity.
Qed.

(** X14.  [findAllCommentsWithPagination] resolves the article by slug
    first.  An unknown slug signals NotFound and the comment repository is
    not asked; otherwise the repository is asked once, for the page and
    limit given and the id of the article the slug resolved to, and its
    answer is returned. *)
Theorem comments_listed_by_slug (h : Handler) (g : Wide.HandlerMore)
    (options : IPaginationOptions) (slug : str) (w : World) :
  let x := Wide.run h g
             (Articles.findAllCommentsWithPagination options slug) w in
  match h _ (ArticleFindBySlug slug) w with
  | (w1, Ok (Some a)) =>
      Wide.comment_listings (snd (fst x)) = [(options, article_id a)]
      /\ (let '(w2, r) :=
            g _ (Wide.CommentFindAllWithPagination options (article_id a))
              w1 in
          fst (fst x) = w2 /\ snd x = r)
  | (w1, Ok None) =>
      x = (w1, [Wide.Core (Invoked (ArticleFindBySlug slug))],
           Err (NotFoundException 404 "slug" "Artilce not found"))
      /\ Wide.comment_listings (snd (fst x)) = []
  | (w1, Err e) =>
      x = (w1, [Wide.Core (Invoked (ArticleFindBySlug slug))], Err e)
      /\ Wide.comment_listings (snd (fst x)) = []
  end.
Proof.
  cbv zeta. unfold Articles.findAllCommentsWithPagination.
  rewrite wide_run_bind, wide_fetch_by_slug.
  destruct (h _ (ArticleFindBySlug slug) w) as [w1 [[a|]|e]];
    [|split; reflexivity|split; reflexivity].
  unfold Comments.findAllWithPagination.
  cbn [page limit Wide.more Wide.run].
  destruct options as [pg lm]. cbn [page limit].
  destruct (g _ (Wide.CommentFindAllWithPagination
                   {| page := pg; limit := lm |} (article_id a)) w1)
    as [w2 [l|e]]; repeat split.
Qed.

(** * The outcome of article creation, for every collaborator *)

(** X15.  Once the tags are resolved, [create] draws the random bytes,
    stores the article and fetches it again by the id of the stored
    article (by [undefined] when the repository's create answered
    nothing).  It returns the article the second fetch found, not the one
    the repository's create returned; when the second fetch finds nothing,
    [create] signals NotFound and the transaction is rolled back although
    the article had been stored. *)
Theorem create_returns_refetched (charMap : N -> option str)
    (normalize : str -> str) (h : Handler) (dto : CreateArticleDto)
    (user : JwtPayloadType) (w : World) :
  let x := run h (ArticlesService.create charMap normalize dto user) w in
  match run h (ArticlesService.createArticle_tags (create_tagList dto)) w with
  | (w1, t1, Ok tgs) =>
      match h _ (GetRandomValues 11) w1 with
      | (w2, Ok rv) =>
          let p := {| payload_title := create_title dto;
                      payload_body := create_body dto;
                      payload_author_id := jwt_id user;
                      payload_tagList := tgs;
                      payload_slug :=
                        ArticlesService.baseSlug charMap normalize
                          (create_title dto)
                        ++ lit "-" ++ Slug.suffix_of 11 rv |} in
          match h _ (ArticleCreate p) w2 with
          | (w3, Ok stored) =>
              let id := option_map article_id stored in
              let t := t1 ++ [Invoked (GetRandomValues 11);
                              Invoked (ArticleCreate p);
                              Invoked (ArticleFindByIdWithRelations id)] in
              match h _ (ArticleFindByIdWithRelations id) w3 with
              | (w4, Ok (Some a)) => x = (w4, Begin :: t ++ [Commit], Ok a)
              | (w4, Ok None) =>
                  x = (rollback w w4, Begin :: t ++ [Rollback],
                       Err (NotFoundException 404 "slug" "Artilce not found"))
                  /\ db (rollback w w4) = db w
              | (w4, Err e) =>
                  x = (rollback w w4, Begin :: t ++ [Rollback], Err e)
              end
          | (w3, Err e) =>
              x = (rollback w w3,
                   Begin :: (t1 ++ [Invoked (GetRandomValues 11);
                                    Invoked (ArticleCreate p)])
                         ++ [Rollback],
                   Err e)
          end
      | (w2, Err e) =>
          x = (rollback w w2,
               Begin :: (t1 ++ [Invoked (GetRandomValues 11)]) ++ [Rollback],
               Err e)
      end
  | (w1, t1, Err e) => x = (rollback w w1, Begin :: t1 ++ [Rollback], Err e)
  end.
Proof.
  cbv zeta. unfold ArticlesService.create. cbn [run].
  rewrite flow_after_tags.
  destruct (run h (ArticlesService.createArticle_tags (create_tagList dto)) w)
    as [[w1 t1] [tgs|e]]; [|reflexivity].
  destruct (h _ (GetRandomValues 11) w1) as [w2 [rv|e]]; [|reflexivity].
  cbv zeta.
  match goal with
  | |- context [h _ (ArticleCreate ?p) w2] =>
      destruct (h _ (ArticleCreate p) w2) as [w3 [stored|e]]; [|reflexivity]
  end.
  rewrite run_validate.
  destruct (h _ (ArticleFindByIdWithRelations (option_map article_id stored))
              w3) as [w4 [[a|]|e]]; try reflexivity.
  split; reflexivity.
Qed.

(** In memory, with the article table refusing every row to the second
    fetch: nothing of the request is left. *)
Example create_refetch_missing :
  let lost : Handler :=
    fun X c w =>
      match c in Call X return World * Result X with
      | ArticleFindByIdWithRelations _ => (w, Ok None)
      | c' => InMemory.handler _ c' w
      end in
  let x := run lost
             (ArticlesService.create Sample.no_table Sample.no_normalize
                Sample.hello Sample.as_alice) Sample.world in
  result_of x = Err ArticlesService.article_not_found
  /\ db (world_of x) = db Sample.world
  /\ List.length (Trace.persisted (trace_of x)) = 1%nat.
Proof. repeat split; reflexivity. Qed.
